(** * covert: the L1 data-cache probe core of [src/main.c]

    A shallow embedding of the C program: machine integers are [Z] with
    their wrap-around written out, undefined behaviour (division by zero,
    an out-of-range shift count, signed overflow) is the [None] of an
    option, and the hardware and the C library (cycle counter, [sysconf],
    [aligned_alloc], [pthread_setaffinity_np]) are a [world] of oracles.
    Every access the cache primitives perform is logged in a trace. *)

From Stdlib Require Import ZArith List Lia Bool String Ascii DecimalString.
Import ListNotations.
Local Open Scope Z_scope.

(** ** Machine integers *)

(** [size_t], [uintptr_t], [uint64_t] and [unsigned long] are 64 bits wide,
    [uint32_t] and [int] 32 bits (x86-64, LP64). *)
Definition wrap64 (z : Z) : Z := z mod 2 ^ 64.
Definition wrap32 (z : Z) : Z := z mod 2 ^ 32.

Definition INT_MAX : Z := 2 ^ 31 - 1.

(** Conversion of an unsigned 32-bit value to [int] (two's complement). *)
Definition to_int (z : Z) : Z :=
  let u := wrap32 z in if u <=? INT_MAX then u else u - 2 ^ 32.

(** [x << s] on a 64-bit unsigned operand; the count must lie in [0, 64). *)
Definition shl64 (x s : Z) : option Z :=
  if (0 <=? s) && (s <? 64) then Some (wrap64 (Z.shiftl x s)) else None.

(** Unsigned 64-bit division; dividing by zero is undefined. *)
Definition udiv64 (x y : Z) : option Z :=
  if y =? 0 then None else Some (x / y).

Definition obind {A B} (o : option A) (f : A -> option B) : option B :=
  match o with
  | Some a => f a
  | None => None
  end.

Notation "x <- e ;; k" := (obind e (fun x => k))
  (at level 61, e at next level, right associativity).

(** ** dlog2 (main.c, lines 21-31) *)

(** The [while (n != 0)] loop.  [n] is a 64-bit value, so 64 shifts clear
    it; the fuel is that bound. *)
Fixpoint dlog2_loop (fuel : nat) (n k : Z) : option Z :=
  if negb (n =? 0) then
    match fuel with
    | O => None
    | S fuel' => dlog2_loop fuel' (Z.shiftr n 1) (wrap32 (k + 1))
    end
  else Some k.

Definition dlog2 (n : Z) : option Z :=
  k <- dlog2_loop 64 n 0 ;;
  Some (wrap32 (k - 1)).

(** The number of significant bits of [n]. *)
Definition bitlen (n : Z) : Z := if n =? 0 then 0 else Z.log2 n + 1.

Definition is_pow2 (n : Z) : Prop := exists e, 0 <= e /\ n = 2 ^ e.

(** ** The machine: memory, trace of accesses, thread affinity *)

Inductive event : Type :=
| EvFill (ptr : Z)               (* the byte load of [cache_fill] *)
| EvFlush (ptr : Z)              (* [clflush] followed by [mfence] *)
| EvTimed (ptr : Z) (dur : Z)    (* the load of [timed_read] and its cycles *)
| EvPrint (text : string).       (* [printf] *)

Record state : Type := mkState {
  st_mem : Z -> Z;              (* the byte stored at each address *)
  st_trace : list event;        (* newest event first *)
  st_affinity : list Z          (* CPUs the calling thread may run on *)
}.

Inductive sysconf_name : Type :=
| SC_LEVEL1_DCACHE_SIZE
| SC_LEVEL1_DCACHE_LINESIZE
| SC_LEVEL1_DCACHE_ASSOC.

(** What the program does not decide: the host and the C library. *)
Record world : Type := mkWorld {
  w_sysconf : sysconf_name -> Z;      (* [sysconf], a [long] *)
  w_aligned_alloc : Z -> Z -> Z;      (* alignment, size; 0 is [NULL] *)
  w_cycles : list event -> Z -> Z;    (* cycles of a load, given the history *)
  w_ncpus : Z                         (* logical CPUs 0 .. w_ncpus - 1 *)
}.

(** What a successful [aligned_alloc] gives: a block inside the address
    space that starts on a multiple of a power of two at least as large as
    the alignment asked for.  That power is the alignment itself where only
    power-of-two alignments succeed, and the next power of two where the
    library rounds the alignment up (as glibc did for 49152). *)
Definition aligned_alloc_ok (w : world) : Prop :=
  forall alignment sz,
    let p := w_aligned_alloc w alignment sz in
    p <> 0 ->
    0 < p /\ p + sz <= 2 ^ 64 /\
    exists P, is_pow2 P /\ alignment <= P /\ p mod P = 0.

(** Computations: a state transformer that may be undefined. *)
Definition M (A : Type) : Type := state -> option (A * state).

Definition mret {A} (a : A) : M A := fun s => Some (a, s).

Definition mbind {A B} (m : M A) (f : A -> M B) : M B :=
  fun s => match m s with
           | Some (a, s') => f a s'
           | None => None
           end.

Definition lift {A} (o : option A) : M A :=
  fun s => match o with
           | Some a => Some (a, s)
           | None => None
           end.

Notation "x <~ e ;; k" := (mbind e (fun x => k))
  (at level 61, e at next level, right associativity).

Definition log (e : event) : M unit :=
  fun s => Some (tt, mkState (st_mem s) (e :: st_trace s) (st_affinity s)).

(** [count += 1] on an [int]: signed overflow is undefined. *)
Definition int_add (a b : Z) : option Z :=
  if (- 2 ^ 31 <=? a + b) && (a + b <=? INT_MAX) then Some (a + b) else None.

Definition newline : string := String (ascii_of_nat 10) EmptyString.

Definition printf (text : string) : M unit := log (EvPrint text).

Definition memset (ptr byte n : Z) : M unit :=
  fun s => Some (tt, mkState
    (fun a => if (ptr <=? a) && (a <? ptr + n) then byte else st_mem s a)
    (st_trace s) (st_affinity s)).

(** ** Cache primitives (main.c, lines 38-96) *)

Definition clflush (ptr : Z) : M unit := log (EvFlush ptr).

Definition cache_flush (ptr : Z) : M unit := clflush ptr.

Definition cache_fill (ptr : Z) : M unit := log (EvFill ptr).

(** The difference of the two counter reads is what the host makes it. *)
Definition timed_read (w : world) (ptr : Z) : M Z :=
  fun s =>
    let dur := wrap64 (w_cycles w (st_trace s) ptr) in
    Some (dur, mkState (st_mem s) (EvTimed ptr dur :: st_trace s)
                       (st_affinity s)).

(** ** The descriptor (main.c, lines 101-147) *)

Record cache_t : Type := mkCache {
  size : Z;
  line_size : Z;
  set_size : Z;
  assoc : Z;
  nsets : Z;
  offset_mask : Z;
  index_mask : Z;
  tag_mask : Z;
  index_shift : Z;
  tag_shift : Z;
  hit_latency : Z;
  miss_latency : Z;
  hit_threshold : Z;
  buffer_size : Z;
  buffer : Z
}.

Definition with_buffer (c : cache_t) (p : Z) : cache_t :=
  mkCache (size c) (line_size c) (set_size c) (assoc c) (nsets c)
          (offset_mask c) (index_mask c) (tag_mask c)
          (index_shift c) (tag_shift c)
          (hit_latency c) (miss_latency c) (hit_threshold c)
          (buffer_size c) p.

Definition with_calibration (c : cache_t) (hit miss thr : Z) : cache_t :=
  mkCache (size c) (line_size c) (set_size c) (assoc c) (nsets c)
          (offset_mask c) (index_mask c) (tag_mask c)
          (index_shift c) (tag_shift c)
          hit miss thr
          (buffer_size c) (buffer c).

(** ** cache_init (main.c, lines 152-203) *)

(** Lines 154-170: the geometry, from what [sysconf] reports.  The struct is
    cleared first, so the fields set later are zero here. *)
Definition cache_init_geometry (w : world) : option cache_t :=
  let size := wrap64 (w_sysconf w SC_LEVEL1_DCACHE_SIZE) in
  let line_size := wrap64 (w_sysconf w SC_LEVEL1_DCACHE_LINESIZE) in
  let assoc := wrap64 (w_sysconf w SC_LEVEL1_DCACHE_ASSOC) in
  let set_size := wrap64 (line_size * assoc) in
  nsets <- udiv64 size set_size ;;
  d1 <- dlog2 line_size ;;
  let index_shift := to_int d1 in
  d2 <- dlog2 nsets ;;
  let tag_shift := to_int (wrap32 (d2 + wrap32 index_shift)) in
  let offset_mask := wrap64 (line_size - 1) in
  index_mask <- shl64 (wrap64 (nsets - 1)) index_shift ;;
  tag_mask <- shl64 (2 ^ 64 - 1) tag_shift ;;
  let buffer_size := wrap64 (size * assoc) in
  Some (mkCache size line_size set_size assoc nsets
                offset_mask index_mask tag_mask index_shift tag_shift
                0 0 0 buffer_size 0).

Definition NTRIALS : Z := 1024.

(** Lines 182-185: touch, then time, the first byte of the buffer. *)
Fixpoint calibrate_hits (w : world) (trials : nat) (ptr mean : Z) : M Z :=
  match trials with
  | O => mret mean
  | S trials' =>
      _ <~ cache_fill ptr ;;
      dur <~ timed_read w ptr ;;
      calibrate_hits w trials' ptr (wrap64 (mean + dur))
  end.

(** Lines 191-194: evict, then time, the first byte of the buffer. *)
Fixpoint calibrate_misses (w : world) (trials : nat) (ptr mean : Z) : M Z :=
  match trials with
  | O => mret mean
  | S trials' =>
      _ <~ cache_flush ptr ;;
      dur <~ timed_read w ptr ;;
      calibrate_misses w trials' ptr (wrap64 (mean + dur))
  end.

(** The result pairs the returned [int] with the descriptor written through
    the pointer argument. *)
Definition cache_init (w : world) : M (Z * cache_t) :=
  c <~ lift (cache_init_geometry w) ;;
  let c := with_buffer c (w_aligned_alloc w (size c) (buffer_size c)) in
  if buffer c =? 0 then mret (-1, c)
  else
    mean <~ calibrate_hits w (Z.to_nat NTRIALS) (buffer c) 0 ;;
    let hit := mean / NTRIALS in
    mean <~ calibrate_misses w (Z.to_nat NTRIALS) (buffer c) 0 ;;
    let miss := mean / NTRIALS in
    let thr := wrap64 (hit + miss) / 2 in
    _ <~ memset (buffer c) 0 (size c) ;;
    mret (0, with_calibration c hit miss thr).

(** ** Set-level operations (main.c, lines 225-300) *)

(** The loops run [k] from 0 up to [assoc]; the body does not read [k], so
    the recursion is on the number of ways still to visit. *)
Fixpoint flush_ways (ways : nat) (c : cache_t) (ptr : Z) : M unit :=
  match ways with
  | O => mret tt
  | S ways' =>
      _ <~ cache_flush ptr ;;
      stride <~ lift (shl64 (nsets c) (index_shift c)) ;;
      flush_ways ways' c (wrap64 (ptr + stride))
  end.

Definition cache_flush_set (c : cache_t) (setno : Z) : M Z :=
  if setno >=? nsets c then mret (-1)
  else
    off <~ lift (shl64 setno (index_shift c)) ;;
    _ <~ flush_ways (Z.to_nat (assoc c)) c (wrap64 (buffer c + off)) ;;
    mret 0.

Fixpoint fill_ways (ways : nat) (c : cache_t) (ptr : Z) : M unit :=
  match ways with
  | O => mret tt
  | S ways' =>
      _ <~ cache_fill ptr ;;
      stride <~ lift (shl64 (nsets c) (index_shift c)) ;;
      fill_ways ways' c (wrap64 (ptr + stride))
  end.

Definition cache_fill_set (c : cache_t) (setno : Z) : M Z :=
  if setno >=? nsets c then mret (-1)
  else
    off <~ lift (shl64 setno (index_shift c)) ;;
    _ <~ fill_ways (Z.to_nat (assoc c)) c (wrap64 (buffer c + off)) ;;
    mret 0.

Definition sadface : string := String.append "sadface." newline.

Fixpoint count_ways (w : world) (ways : nat) (c : cache_t) (ptr count : Z)
  : M Z :=
  match ways with
  | O => mret count
  | S ways' =>
      dur <~ timed_read w ptr ;;
      count <~ (if hit_threshold c >=? dur then lift (int_add count 1)
                else mret count) ;;
      stride <~ lift (shl64 (nsets c) (index_shift c)) ;;
      let ptr := wrap64 (ptr + stride) in
      _ <~ (if negb (ptr <? wrap64 (buffer c + buffer_size c))
            then printf sadface else mret tt) ;;
      count_ways w ways' c ptr count
  end.

Definition cache_count_hits (w : world) (c : cache_t) (setno : Z) : M Z :=
  if setno >=? nsets c then mret (-1)
  else
    off <~ lift (shl64 setno (index_shift c)) ;;
    count_ways w (Z.to_nat (assoc c)) c (wrap64 (buffer c + off)) 0.

(** ** pin_current_thread (main.c, lines 302-313) *)

Definition CPU_SETSIZE : Z := 1024.

Definition CPU_ZERO : list Z := [].

(** glibc's [CPU_SET] leaves the set alone for a CPU beyond its capacity. *)
Definition CPU_SET (cpu : Z) (cpuset : list Z) : list Z :=
  if (0 <=? cpu) && (cpu <? CPU_SETSIZE) then cpu :: cpuset else cpuset.

Definition EINVAL : Z := 22.

(** The kernel keeps the CPUs of the mask that the host has, and refuses a
    mask that has none of them.  The byte length the caller passes is not
    part of the model (the source passes [CPU_SETSIZE], 1024, for a set of
    128 bytes): on a host with at most 1024 CPUs the bytes read past the set
    describe CPUs the host does not have. *)
Definition pthread_setaffinity_np (w : world) (cpuset : list Z) : M Z :=
  fun s =>
    match filter (fun cpu => (0 <=? cpu) && (cpu <? w_ncpus w)) cpuset with
    | [] => Some (EINVAL, s)
    | cpus => Some (0, mkState (st_mem s) (st_trace s) cpus)
    end.

Definition pin_current_thread (w : world) (cpuno : Z) : M Z :=
  let cpuset := CPU_ZERO in
  let cpuset := CPU_SET cpuno cpuset in
  _ <~ pthread_setaffinity_np w cpuset ;;
  mret 0.

(** ** Vocabulary of the statements *)

(** The pointer the set loops hold on entering way [k]: the start pointer
    advanced [k] times by [nsets << index_shift], as the loops do. *)
Fixpoint way_ptr (c : cache_t) (setno : Z) (k : nat) : Z :=
  match k with
  | O => wrap64 (buffer c + wrap64 (Z.shiftl setno (index_shift c)))
  | S k' => wrap64 (way_ptr c setno k'
                    + wrap64 (Z.shiftl (nsets c) (index_shift c)))
  end.

Definition way_addr (c : cache_t) (setno k : Z) : Z :=
  way_ptr c setno (Z.to_nat k).

(** Addresses a trace touches, in the order of the trace (newest first). *)
Fixpoint touched_rev (t : list event) : list Z :=
  match t with
  | [] => []
  | EvFill p :: t' => p :: touched_rev t'
  | EvFlush p :: t' => p :: touched_rev t'
  | EvTimed p _ :: t' => p :: touched_rev t'
  | EvPrint _ :: t' => touched_rev t'
  end.

(** The same addresses in the order of the accesses (oldest first). *)
Definition touched (t : list event) : list Z := rev (touched_rev t).

(** Timed reads of a trace that [hit_threshold] classifies as hits. *)
Fixpoint hits_in (c : cache_t) (t : list event) : Z :=
  match t with
  | [] => 0
  | EvTimed _ dur :: t' =>
      (if dur <=? hit_threshold c then 1 else 0) + hits_in c t'
  | _ :: t' => hits_in c t'
  end.

(** Occurrences of the diagnostic line in a trace. *)
Fixpoint prints_in (t : list event) : Z :=
  match t with
  | [] => 0
  | EvPrint _ :: t' => 1 + prints_in t'
  | _ :: t' => prints_in t'
  end.

(** Ways of [ks] whose advanced pointer fails the test of line 294. *)
Definition escapes (c : cache_t) (setno : Z) (ks : list nat) : Z :=
  Z.of_nat (List.length (filter
    (fun k => negb (way_ptr c setno (S k)
                    <? wrap64 (buffer c + buffer_size c))) ks)).

(** The state after the events [evs] (newest first) were logged. *)
Definition extend (s : state) (evs : list event) : state :=
  mkState (st_mem s) (evs ++ st_trace s) (st_affinity s).

(** The addresses of the [assoc] ways of a set, in the order of the loops. *)
Definition ways (c : cache_t) (setno : Z) : list Z :=
  map (way_ptr c setno) (seq 0 (Z.to_nat (assoc c))).

(** The descriptor as the geometry step leaves it: no buffer yet, no
    calibration yet. *)
Definition geometry_of (c : cache_t) : cache_t :=
  with_calibration (with_buffer c 0) 0 0 0.

(** The memory after [memset (ptr, 0, n)]. *)
Definition zeroed (mem : Z -> Z) (ptr n : Z) : Z -> Z :=
  fun a => if (ptr <=? a) && (a <? ptr + n) then 0 else mem a.

(** An idealised host: a load hits when the last event on its line was a
    load, and misses when it was a flush or when there was none. *)
Fixpoint resident (line : Z) (hist : list event) (ptr : Z) : bool :=
  match hist with
  | [] => false
  | EvFill p :: h => if p / line =? ptr / line then true else resident line h ptr
  | EvTimed p _ :: h =>
      if p / line =? ptr / line then true else resident line h ptr
  | EvFlush p :: h =>
      if p / line =? ptr / line then false else resident line h ptr
  | EvPrint _ :: h => resident line h ptr
  end.

Definition is_pow2b (n : Z) : bool := (0 <? n) && (n =? 2 ^ Z.log2 n).

Definition host (sz line nways base hit miss ncpus : Z) : world :=
  mkWorld
    (fun name => match name with
                 | SC_LEVEL1_DCACHE_SIZE => sz
                 | SC_LEVEL1_DCACHE_LINESIZE => line
                 | SC_LEVEL1_DCACHE_ASSOC => nways
                 end)
    (fun alignment n =>
       if is_pow2b alignment && (base mod alignment =? 0)
          && (0 <? base) && (base + n <=? 2 ^ 64)
       then base else 0)
    (fun hist ptr => if resident line hist ptr then hit else miss)
    ncpus.

(** A machine that has run nothing yet; its memory holds arbitrary bytes. *)
Definition boot : state := mkState (fun _ => 170) [] [0; 1; 2; 3].

(** A 32 KiB, 8-way L1 with 64-byte lines; hits take 40 cycles, misses 200. *)
Definition i7 : world := host 32768 64 8 (2 ^ 20) 40 200 4.

Definition i7_cache : cache_t :=
  mkCache 32768 64 512 8 64 63 4032 (2 ^ 64 - 4096) 6 12 40 200 120
          262144 (2 ^ 20).

(** The same geometry on a host whose loads all take 100 cycles. *)
Definition flat : world := host 32768 64 8 (2 ^ 20) 100 100 4.

Definition flat_cache : cache_t :=
  mkCache 32768 64 512 8 64 63 4032 (2 ^ 64 - 4096) 6 12 100 100 100
          262144 (2 ^ 20).

(** A direct-mapped 4 KiB cache: one way, so the buffer is [size] bytes. *)
Definition direct : world := host 4096 64 1 (2 ^ 20) 40 200 4.

Definition direct_cache : cache_t :=
  mkCache 4096 64 64 1 64 63 4032 (2 ^ 64 - 4096) 6 12 40 200 120
          4096 (2 ^ 20).

(** ** cache_deinit, transmit, receive, main (main.c, lines 208-213, 321-363) *)

(** [free]: the blocks given back are listed beside the machine, newest
    first; [free (NULL)] does nothing. *)
Definition free (ptr : Z) (released : list Z) : list Z :=
  if ptr =? 0 then released else ptr :: released.

Definition cache_deinit (c : cache_t) (released : list Z) : Z * list Z :=
  (0, free (buffer c) released).

Definition transmit (c : cache_t) (setno : Z) (msg : string) : M Z := mret 0.

Definition receive (c : cache_t) (setno : Z) : M Z := mret 0.

Definition isspace (ch : ascii) : bool :=
  let n := Z.of_nat (nat_of_ascii ch) in
  (n =? 32) || ((9 <=? n) && (n <=? 13)).

Definition digit_of (ch : ascii) : option Z :=
  let n := Z.of_nat (nat_of_ascii ch) in
  if (48 <=? n) && (n <=? 57) then Some (n - 48) else None.

Fixpoint skip_spaces (s : string) : string :=
  match s with
  | String ch rest => if isspace ch then skip_spaces rest else s
  | EmptyString => s
  end.

Fixpoint digits (s : string) (acc : Z) : Z :=
  match s with
  | String ch rest =>
      match digit_of ch with
      | Some d => digits rest (10 * acc + d)
      | None => acc
      end
  | EmptyString => acc
  end.

(** [atoi]: white space, an optional sign, then the decimal digits up to the
    first other character; a value that does not fit an [int] is undefined. *)
Definition atoi (s : string) : option Z :=
  let v := match skip_spaces s with
           | String "-" rest => - digits rest 0
           | String "+" rest => digits rest 0
           | rest => digits rest 0
           end in
  if (- 2 ^ 31 <=? v) && (v <=? INT_MAX) then Some v else None.

(** The text [printf] writes for [%d]. *)
Definition show_int (z : Z) : string := NilZero.string_of_int (Z.to_int z).

(** [main]: [argv] holds the [argc] arguments, the program name first.  The
    result pairs the exit status with the blocks released. *)
Definition main (w : world) (argv : list string) : M (Z * list Z) :=
  if negb (Z.of_nat (List.length argv) =? 4) then mret (1, [])
  else
    let role := nth 1 argv EmptyString in
    setno <~ lift (atoi (nth 2 argv EmptyString)) ;;
    cpuno <~ lift (atoi (nth 3 argv EmptyString)) ;;
    _ <~ pin_current_thread w cpuno ;;
    rc <~ cache_init w ;;
    let cache := snd rc in
    _ <~ printf ("Set:    " ++ show_int setno ++ newline) ;;
    _ <~ printf ("CPU:   " ++ show_int cpuno ++ newline) ;;
    _ <~ (if String.eqb role "transmit" then
            _ <~ printf ("Role:  TRANSMIT" ++ newline) ;;
            _ <~ transmit cache setno "hello world!" ;;
            mret tt
          else if String.eqb role "receive" then
            _ <~ printf ("Role:  RECEIVE" ++ newline) ;;
            _ <~ receive cache setno ;;
            mret tt
          else
            printf ("Invalid role: " ++ role ++ newline)) ;;
    mret (0, snd (cache_deinit cache [])).

(** ** More vocabulary *)

(** The cycles of the timed reads of a trace, added up. *)
Fixpoint durations (t : list event) : Z :=
  match t with
  | [] => 0
  | EvTimed _ dur :: t' => dur + durations t'
  | _ :: t' => durations t'
  end.

(** A host without noise and without capacity evictions: a load of a
    resident line takes [hit] cycles, any other load [miss]. *)
Definition ideal (w : world) (line hit miss : Z) : Prop :=
  forall hist ptr,
    w_cycles w hist ptr = if resident line hist ptr then hit else miss.

(** A host on which [aligned_alloc] fails. *)
Definition exhausted : world := host 32768 64 8 0 40 200 4.

(** A host that reports a cache smaller than one set. *)
Definition tiny : world := host 256 64 8 (2 ^ 20) 40 200 4.

(** The descriptor with one more way; the loops' pointers do not depend on
    [assoc]. *)
Definition with_assoc (c : cache_t) (n : Z) : cache_t :=
  mkCache (size c) (line_size c) (set_size c) n (nsets c)
          (offset_mask c) (index_mask c) (tag_mask c)
          (index_shift c) (tag_shift c)
          (hit_latency c) (miss_latency c) (hit_threshold c)
          (buffer_size c) (buffer c).

(** Where the buffer of a descriptor lies: inside the address space, and on
    a multiple of the way stride [nsets * line_size]. *)
Definition placed (c : cache_t) : Prop :=
  0 < buffer c /\
  buffer c + buffer_size c <= 2 ^ 64 /\
  buffer c mod (nsets c * line_size c) = 0.

(** A 48 KiB, 12-way L1 with 64-byte lines: the cache size is not a power of
    two.  The allocator serves every alignment up to 2^20 with the block at
    2^20. *)
Definition icelake : world :=
  mkWorld
    (fun name => match name with
                 | SC_LEVEL1_DCACHE_SIZE => 49152
                 | SC_LEVEL1_DCACHE_LINESIZE => 64
                 | SC_LEVEL1_DCACHE_ASSOC => 12
                 end)
    (fun alignment n =>
       if (alignment <=? 2 ^ 20) && (2 ^ 20 + n <=? 2 ^ 64)
       then 2 ^ 20 else 0)
    (fun hist ptr => if resident 64 hist ptr then 40 else 200)
    8.

Definition icelake_cache : cache_t :=
  mkCache 49152 64 768 12 64 63 4032 (2 ^ 64 - 4096) 6 12 40 200 120
          589824 (2 ^ 20).

(** The chronological events of the two calibration loops, from the cycles
    of their timed reads. *)
Definition hit_trials (ptr : Z) (durs : list Z) : list event :=
  flat_map (fun dur => [EvFill ptr; EvTimed ptr dur]) durs.

Definition miss_trials (ptr : Z) (durs : list Z) : list event :=
  flat_map (fun dur => [EvFlush ptr; EvTimed ptr dur]) durs.

Definition total (durs : list Z) : Z := fold_right Z.add 0 durs.

(** The line [main] prints for its role argument. *)
Definition role_line (role : string) : string :=
  if String.eqb role "transmit" then "Role:  TRANSMIT" ++ newline
  else if String.eqb role "receive" then "Role:  RECEIVE" ++ newline
  else "Invalid role: " ++ role ++ newline.

(** ** Proof steps *)

(** Read the fields of a descriptor rebuilt by the record updates. *)
Ltac fields H :=
  cbn [geometry_of with_calibration with_buffer size line_size set_size assoc
       nsets offset_mask index_mask tag_mask index_shift tag_shift
       hit_latency miss_latency hit_threshold buffer_size buffer] in H.

(** Unfold one monadic step of a goal about [mbind]. *)
Ltac mstep := unfold mbind, mret, lift, cache_fill, cache_flush, clflush,
  printf, log, timed_read; simpl.

(** * Theorems *)

Lemma wrap32_small z : 0 <= z < 2 ^ 32 -> wrap32 z = z.
Proof. intros H. unfold wrap32. now apply Z.mod_small. Qed.

Lemma wrap64_small z : 0 <= z < 2 ^ 64 -> wrap64 z = z.
Proof. intros H. unfold wrap64. now apply Z.mod_small. Qed.

Lemma wrap64_range z : 0 <= wrap64 z < 2 ^ 64.
Proof. unfold wrap64. apply Z.mod_pos_bound. lia. Qed.

Lemma bitlen_nonneg n : 0 <= bitlen n.
Proof.
  unfold bitlen. destruct (n =? 0); [lia|].
  pose proof (Z.log2_nonneg n). lia.
Qed.

Lemma bitlen_half n : 0 < n -> bitlen (Z.shiftr n 1) = bitlen n - 1.
Proof.
  intros Hn. unfold bitlen.
  rewrite Z.shiftr_div_pow2 by lia. change (2 ^ 1) with 2.
  destruct (Z.eq_dec n 1) as [->|Hn1]; [reflexivity|].
  assert (H2 : 2 <= n) by lia.
  assert (Hq : 0 < n / 2) by (apply Z.div_str_pos; lia).
  destruct (Z.eqb_spec (n / 2) 0); [lia|].
  destruct (Z.eqb_spec n 0); [lia|].
  pose proof (Z.log2_spec n ltac:(lia)) as [Hlo Hhi].
  assert (Hl : 1 <= Z.log2 n) by (apply Z.log2_le_pow2; simpl; lia).
  replace (Z.succ (Z.log2 n)) with (Z.log2 n - 1 + 1 + 1) in Hhi by lia.
  replace (Z.log2 n) with (Z.log2 n - 1 + 1) in Hlo at 1 by lia.
  rewrite Z.pow_add_r in Hlo, Hhi by lia. change (2 ^ 1) with 2 in *.
  rewrite (Z.log2_unique (n / 2) (Z.log2 n - 1)); [lia|lia|].
  replace (Z.succ (Z.log2 n - 1)) with (Z.log2 n - 1 + 1) by lia.
  split.
  - apply Z.div_le_lower_bound; lia.
  - apply Z.div_lt_upper_bound; lia.
Qed.

Lemma bitlen_bound n b : 0 <= b -> 0 <= n < 2 ^ b -> bitlen n <= b.
Proof.
  intros Hb [H0 Hlt]. unfold bitlen.
  destruct (Z.eqb_spec n 0); [lia|].
  assert (Z.log2 n < b) by (apply Z.log2_lt_pow2; lia). lia.
Qed.

(** Loop invariant of [dlog2]: with enough fuel for the bits that are left,
    the loop adds the bit length of [n] to the counter. *)
Lemma dlog2_loop_spec fuel : forall n k,
  0 <= n -> bitlen n <= Z.of_nat fuel ->
  0 <= k -> k + bitlen n < 2 ^ 32 ->
  dlog2_loop fuel n k = Some (k + bitlen n).
Proof.
  induction fuel as [|fuel IH]; intros n k Hn Hfuel Hk Hsum.
  - pose proof (bitlen_nonneg n) as Hb.
    assert (Hz : bitlen n = 0) by lia.
    unfold bitlen in Hz. simpl.
    destruct (Z.eqb_spec n 0) as [->|Hne].
    + simpl. f_equal. unfold bitlen. simpl. lia.
    + pose proof (Z.log2_nonneg n). lia.
  - simpl. destruct (Z.eqb_spec n 0) as [->|Hne]; simpl.
    + f_equal. unfold bitlen. simpl. lia.
    + assert (Hpos : 0 < n) by lia.
      pose proof (bitlen_half n Hpos) as Hh.
      pose proof (bitlen_nonneg (Z.shiftr n 1)) as Hb.
      rewrite wrap32_small by lia.
      rewrite IH.
      * f_equal. lia.
      * apply Z.shiftr_nonneg. lia.
      * lia.
      * lia.
      * lia.
Qed.

Lemma dlog2_bitlen n :
  0 <= n < 2 ^ 64 -> dlog2 n = Some (wrap32 (bitlen n - 1)).
Proof.
  intros Hn. unfold dlog2.
  assert (Hb : bitlen n <= 64) by (apply bitlen_bound; lia).
  pose proof (bitlen_nonneg n).
  rewrite dlog2_loop_spec by (change (Z.of_nat 64) with 64; lia).
  reflexivity.
Qed.

Lemma dlog2_log2 n : 1 <= n < 2 ^ 64 -> dlog2 n = Some (Z.log2 n).
Proof.
  intros Hn. rewrite dlog2_bitlen by lia.
  unfold bitlen. destruct (Z.eqb_spec n 0); [lia|].
  assert (Z.log2 n < 64) by (apply Z.log2_lt_pow2; lia).
  pose proof (Z.log2_nonneg n).
  rewrite wrap32_small by lia. f_equal. lia.
Qed.

Lemma dlog2_pow2 e : 0 <= e < 64 -> dlog2 (2 ^ e) = Some e.
Proof.
  intros He.
  assert (2 ^ e < 2 ^ 64) by (apply Z.pow_lt_mono_r; lia).
  assert (0 < 2 ^ e) by (apply Z.pow_pos_nonneg; lia).
  rewrite dlog2_log2 by lia.
  now rewrite Z.log2_pow2 by lia.
Qed.

(** C6: [dlog2 1 = 0], [dlog2 2 = 1], [dlog2 (2^k) = k] for every [k] whose
    power fits a [size_t], and for every [n >= 1] the result is the floor of
    the base-2 logarithm: [2 ^ r <= n < 2 ^ (r + 1)]. *)
Theorem dlog2_floor_log2 :
  dlog2 1 = Some 0 /\
  dlog2 2 = Some 1 /\
  (forall k, 0 <= k -> 2 ^ k < 2 ^ 64 -> dlog2 (2 ^ k) = Some k) /\
  (forall n, 1 <= n < 2 ^ 64 ->
     exists r, dlog2 n = Some r /\ r = Z.log2 n /\
               0 <= r /\ 2 ^ r <= n < 2 ^ (r + 1)).
Proof.
  split; [reflexivity|]. split; [reflexivity|]. split.
  - intros k Hk Hlt. apply dlog2_pow2.
    split; [exact Hk|]. apply (Z.pow_lt_mono_r_iff 2); lia.
  - intros n Hn. exists (Z.log2 n).
    split; [now apply dlog2_log2|]. split; [reflexivity|].
    split; [apply Z.log2_nonneg|].
    replace (Z.log2 n + 1) with (Z.succ (Z.log2 n)) by lia.
    apply Z.log2_spec. lia.
Qed.

(** C7: on the zero input the loop body never runs and [k - 1] wraps in
    [uint32_t]: the result is [2^32 - 1]. *)
Theorem dlog2_zero : dlog2 0 = Some (2 ^ 32 - 1) /\ 2 ^ 32 - 1 = wrap32 (0 - 1).
Proof. split; reflexivity. Qed.

(** ** Traces of the set loops *)

Lemma touched_app t1 t2 : touched (t1 ++ t2) = touched t2 ++ touched t1.
Proof.
  unfold touched. rewrite <- rev_app_distr. f_equal.
  induction t1 as [|[p|p|p d|x] t1 IH]; simpl; rewrite ?IH; reflexivity.
Qed.

Lemma hits_in_app c t1 t2 : hits_in c (t1 ++ t2) = hits_in c t1 + hits_in c t2.
Proof.
  induction t1 as [|[p|p|p d|x] t1 IH]; simpl; rewrite ?IH; lia.
Qed.

Lemma prints_in_app t1 t2 : prints_in (t1 ++ t2) = prints_in t1 + prints_in t2.
Proof.
  induction t1 as [|[p|p|p d|x] t1 IH]; cbn [prints_in app];
    rewrite ?IH; lia.
Qed.

Lemma hits_in_nonneg c t : 0 <= hits_in c t.
Proof.
  induction t as [|[p|p|p d|x] t IH]; simpl; try lia.
  destruct (d <=? hit_threshold c); lia.
Qed.

Lemma shl64_defined x s :
  0 <= s < 64 -> shl64 x s = Some (wrap64 (Z.shiftl x s)).
Proof.
  intros [H0 H1]. unfold shl64.
  destruct (Z.leb_spec 0 s); [|lia]. destruct (Z.ltb_spec s 64); [|lia].
  reflexivity.
Qed.

Lemma shl64_inv x s r :
  shl64 x s = Some r -> 0 <= s < 64 /\ r = wrap64 (Z.shiftl x s).
Proof.
  unfold shl64. destruct (Z.leb_spec 0 s); simpl; [|discriminate].
  destruct (Z.ltb_spec s 64); [|discriminate].
  intros [= <-]. split; [lia|reflexivity].
Qed.

Lemma fill_ways_trace c setno n : forall j s,
  0 <= index_shift c < 64 ->
  exists evs,
    fill_ways n c (way_ptr c setno j) s
      = Some (tt, mkState (st_mem s) (evs ++ st_trace s) (st_affinity s)) /\
    touched evs = map (way_ptr c setno) (seq j n) /\
    prints_in evs = 0.
Proof.
  induction n as [|n IH]; intros j s Hsh.
  - exists []. destruct s; simpl. repeat split.
  - simpl. mstep. rewrite shl64_defined by exact Hsh. simpl.
    destruct (IH (S j)
                (mkState (st_mem s) (EvFill (way_ptr c setno j) :: st_trace s)
                         (st_affinity s)) Hsh) as (evs & Hrun & Htouch & Hpr).
    exists (evs ++ [EvFill (way_ptr c setno j)]).
    simpl in Hrun. rewrite Hrun. simpl. rewrite <- app_assoc. simpl.
    split; [reflexivity|]. split.
    + rewrite touched_app, Htouch. reflexivity.
    + rewrite prints_in_app, Hpr. reflexivity.
Qed.

Lemma flush_ways_trace c setno n : forall j s,
  0 <= index_shift c < 64 ->
  exists evs,
    flush_ways n c (way_ptr c setno j) s
      = Some (tt, mkState (st_mem s) (evs ++ st_trace s) (st_affinity s)) /\
    touched evs = map (way_ptr c setno) (seq j n) /\
    prints_in evs = 0.
Proof.
  induction n as [|n IH]; intros j s Hsh.
  - exists []. destruct s; simpl. repeat split.
  - simpl. mstep. rewrite shl64_defined by exact Hsh. simpl.
    destruct (IH (S j)
                (mkState (st_mem s) (EvFlush (way_ptr c setno j) :: st_trace s)
                         (st_affinity s)) Hsh) as (evs & Hrun & Htouch & Hpr).
    exists (evs ++ [EvFlush (way_ptr c setno j)]).
    simpl in Hrun. rewrite Hrun. simpl. rewrite <- app_assoc. simpl.
    split; [reflexivity|]. split.
    + rewrite touched_app, Htouch. reflexivity.
    + rewrite prints_in_app, Hpr. reflexivity.
Qed.

Lemma escapes_cons c setno k ks :
  escapes c setno (k :: ks)
  = (if negb (way_ptr c setno (S k) <? wrap64 (buffer c + buffer_size c))
     then 1 else 0) + escapes c setno ks.
Proof.
  unfold escapes. simpl.
  destruct (negb _); simpl List.length; lia.
Qed.

Lemma count_ways_trace w c setno n : forall j count s,
  0 <= index_shift c < 64 ->
  0 <= count -> count + Z.of_nat n <= INT_MAX ->
  exists evs,
    count_ways w n c (way_ptr c setno j) count s
      = Some (count + hits_in c evs,
              mkState (st_mem s) (evs ++ st_trace s) (st_affinity s)) /\
    touched evs = map (way_ptr c setno) (seq j n) /\
    prints_in evs = escapes c setno (seq j n) /\
    (forall text, In (EvPrint text) evs -> text = sadface) /\
    hits_in c evs <= Z.of_nat n.
Proof.
  induction n as [|n IH]; intros j count s Hsh Hc Hmax.
  - exists []. destruct s; simpl. rewrite Z.add_0_r.
    split; [reflexivity|]. split; [reflexivity|]. split; [reflexivity|].
    split; [intros text []|lia].
  - remember (Z.of_nat (S n)) as m eqn:Hm. rewrite Nat2Z.inj_succ in Hm.
    simpl count_ways. unfold mbind at 1. unfold timed_read at 1.
    set (dur := wrap64 (w_cycles w (st_trace s) (way_ptr c setno j))).
    set (ev := EvTimed (way_ptr c setno j) dur).
    set (h := if dur <=? hit_threshold c then 1 else 0).
    assert (Hh : 0 <= h <= 1) by (unfold h; destruct (dur <=? _); lia).
    assert (Hcount : (if hit_threshold c >=? dur
                      then lift (int_add count 1) else mret count)
                     = mret (count + h)).
    { unfold h. rewrite Z.geb_leb. destruct (dur <=? hit_threshold c).
      - unfold int_add, INT_MAX in *.
        destruct (Z.leb_spec (- 2 ^ 31) (count + 1)); [|lia].
        destruct (Z.leb_spec (count + 1) (2 ^ 31 - 1)); [|lia].
        reflexivity.
      - rewrite Z.add_0_r. reflexivity. }
    rewrite Hcount. mstep. rewrite shl64_defined by exact Hsh. simpl.
    change (wrap64 (way_ptr c setno j
                    + wrap64 (Z.shiftl (nsets c) (index_shift c))))
      with (way_ptr c setno (S j)).
    simpl seq. simpl map. rewrite escapes_cons.
    destruct (way_ptr c setno (S j) <? wrap64 (buffer c + buffer_size c))
      eqn:Hin; cbn [negb]; unfold mbind, printf, log, mret;
      cbn [st_mem st_trace st_affinity].
    + destruct (IH (S j) (count + h)
                  (mkState (st_mem s) (ev :: st_trace s) (st_affinity s))
                  Hsh ltac:(lia) ltac:(lia))
        as (evs & Hrun & Ht & Hp & Hs & Hb).
      exists (evs ++ [ev]). rewrite Hrun.
      rewrite <- app_assoc, hits_in_app, touched_app, prints_in_app, Ht, Hp.
      subst ev. cbn [hits_in prints_in touched touched_rev rev app]. fold h.
      split; [f_equal; f_equal; lia|].
      split; [reflexivity|]. split; [lia|]. split; [|lia].
      intros text Hi. apply in_app_or in Hi.
      destruct Hi as [Hi|[Hi|[]]]; [now apply Hs|discriminate].
    + destruct (IH (S j) (count + h)
                  (mkState (st_mem s) (EvPrint sadface :: ev :: st_trace s)
                           (st_affinity s))
                  Hsh ltac:(lia) ltac:(lia))
        as (evs & Hrun & Ht & Hp & Hs & Hb).
      exists (evs ++ [EvPrint sadface; ev]). rewrite Hrun.
      rewrite <- app_assoc, hits_in_app, touched_app, prints_in_app, Ht, Hp.
      subst ev. cbn [hits_in prints_in touched touched_rev rev app]. fold h.
      split; [f_equal; f_equal; lia|].
      split; [reflexivity|]. split; [lia|]. split; [|lia].
      intros text Hi. apply in_app_or in Hi.
      destruct Hi as [Hi|[Hi|[Hi|[]]]];
        [now apply Hs|now injection Hi as <-|discriminate].
Qed.

Lemma cache_fill_set_run c setno s :
  0 <= setno < nsets c -> 0 <= index_shift c < 64 ->
  exists evs,
    cache_fill_set c setno s = Some (0, extend s evs) /\
    touched evs = ways c setno /\ prints_in evs = 0.
Proof.
  intros Hset Hsh. unfold cache_fill_set.
  destruct (Z.geb_spec setno (nsets c)); [lia|].
  unfold mbind at 1, lift. rewrite shl64_defined by exact Hsh.
  destruct (fill_ways_trace c setno (Z.to_nat (assoc c)) 0%nat s Hsh)
    as (evs & Hrun & Ht & Hp).
  exists evs. unfold mbind. simpl in Hrun. rewrite Hrun.
  repeat split; assumption.
Qed.

Lemma cache_flush_set_run c setno s :
  0 <= setno < nsets c -> 0 <= index_shift c < 64 ->
  exists evs,
    cache_flush_set c setno s = Some (0, extend s evs) /\
    touched evs = ways c setno /\ prints_in evs = 0.
Proof.
  intros Hset Hsh. unfold cache_flush_set.
  destruct (Z.geb_spec setno (nsets c)); [lia|].
  unfold mbind at 1, lift. rewrite shl64_defined by exact Hsh.
  destruct (flush_ways_trace c setno (Z.to_nat (assoc c)) 0%nat s Hsh)
    as (evs & Hrun & Ht & Hp).
  exists evs. unfold mbind. simpl in Hrun. rewrite Hrun.
  repeat split; assumption.
Qed.

Lemma cache_count_hits_run w c setno s :
  0 <= setno < nsets c -> 0 <= index_shift c < 64 -> assoc c <= INT_MAX ->
  exists evs,
    cache_count_hits w c setno s = Some (hits_in c evs, extend s evs) /\
    touched evs = ways c setno /\
    prints_in evs = escapes c setno (seq 0 (Z.to_nat (assoc c))) /\
    (forall text, In (EvPrint text) evs -> text = sadface) /\
    0 <= hits_in c evs <= Z.max 0 (assoc c).
Proof.
  intros Hset Hsh Hmax. unfold cache_count_hits.
  destruct (Z.geb_spec setno (nsets c)); [lia|].
  unfold mbind at 1, lift. rewrite shl64_defined by exact Hsh.
  destruct (count_ways_trace w c setno (Z.to_nat (assoc c)) 0%nat 0 s Hsh)
    as (evs & Hrun & Ht & Hp & Hs & Hb); [lia|unfold INT_MAX in *; lia|].
  exists evs. simpl in Hrun. rewrite Hrun.
  split; [reflexivity|]. split; [assumption|]. split; [assumption|].
  split; [assumption|].
  pose proof (hits_in_nonneg c evs). lia.
Qed.


(** ** The geometry computed by [cache_init] *)

Lemma cache_init_geometry_inv w c :
  cache_init_geometry w = Some c ->
  size c = wrap64 (w_sysconf w SC_LEVEL1_DCACHE_SIZE) /\
  line_size c = wrap64 (w_sysconf w SC_LEVEL1_DCACHE_LINESIZE) /\
  assoc c = wrap64 (w_sysconf w SC_LEVEL1_DCACHE_ASSOC) /\
  set_size c = wrap64 (line_size c * assoc c) /\
  set_size c <> 0 /\
  nsets c = size c / set_size c /\
  (exists d1, dlog2 (line_size c) = Some d1 /\ index_shift c = to_int d1) /\
  (exists d2, dlog2 (nsets c) = Some d2 /\
              tag_shift c = to_int (wrap32 (d2 + wrap32 (index_shift c)))) /\
  offset_mask c = wrap64 (line_size c - 1) /\
  shl64 (wrap64 (nsets c - 1)) (index_shift c) = Some (index_mask c) /\
  shl64 (2 ^ 64 - 1) (tag_shift c) = Some (tag_mask c) /\
  buffer_size c = wrap64 (size c * assoc c) /\
  buffer c = 0 /\
  hit_latency c = 0 /\ miss_latency c = 0 /\ hit_threshold c = 0.
Proof.
  unfold cache_init_geometry, udiv64.
  set (sz := wrap64 (w_sysconf w SC_LEVEL1_DCACHE_SIZE)).
  set (ln := wrap64 (w_sysconf w SC_LEVEL1_DCACHE_LINESIZE)).
  set (ws := wrap64 (w_sysconf w SC_LEVEL1_DCACHE_ASSOC)).
  destruct (Z.eqb_spec (wrap64 (ln * ws)) 0) as [|Hset]; [discriminate|].
  cbn [obind].
  destruct (dlog2 ln) as [d1|] eqn:Hd1; [|discriminate]. cbn [obind].
  destruct (dlog2 (sz / wrap64 (ln * ws))) as [d2|] eqn:Hd2; [|discriminate].
  cbn [obind].
  destruct (shl64 _ (to_int d1)) as [im|] eqn:Him; [|discriminate].
  cbn [obind].
  destruct (shl64 (2 ^ 64 - 1) _) as [tm|] eqn:Htm; [|discriminate].
  cbn [obind].
  intros [= <-]. cbn [size line_size assoc set_size nsets offset_mask
    index_mask tag_mask index_shift tag_shift buffer_size buffer
    hit_latency miss_latency hit_threshold].
  repeat split; try assumption; try reflexivity.
  - exists d1. split; [exact Hd1|reflexivity].
  - exists d2. split; [exact Hd2|reflexivity].
Qed.

Lemma to_int_small z : 0 <= z < 128 -> to_int z = z.
Proof.
  intros Hz. unfold to_int, INT_MAX. rewrite wrap32_small by lia.
  destruct (Z.leb_spec z (2 ^ 31 - 1)); lia.
Qed.

Lemma pow2_lt_64 e : 0 <= e -> 2 ^ e < 2 ^ 64 -> e < 64.
Proof. intros He H. apply (Z.pow_lt_mono_r_iff 2); lia. Qed.

(** A multiple of a power of two stays one when it wraps at 64 bits. *)
Lemma wrap64_mul_pow2 a x :
  0 <= a < 64 -> wrap64 (2 ^ a * x) = 2 ^ a * (x mod 2 ^ (64 - a)).
Proof.
  intros Ha. unfold wrap64.
  replace (2 ^ 64) with (2 ^ a * 2 ^ (64 - a)).
  - apply Z.mul_mod_distr_l.
    + apply Z.pow_nonzero; lia.
    + apply Z.pow_nonzero; lia.
  - rewrite <- Z.pow_add_r by lia. f_equal. lia.
Qed.

(** What the source's shifts and masks are when the line size and the number
    of sets are powers of two. *)
Lemma pow2_geometry w c :
  cache_init_geometry w = Some c ->
  is_pow2 (line_size c) -> is_pow2 (nsets c) ->
  exists a b,
    0 <= a /\ 0 <= b /\ a + b < 64 /\
    line_size c = 2 ^ a /\ nsets c = 2 ^ b /\
    index_shift c = a /\ tag_shift c = a + b /\
    offset_mask c = Z.ones a /\
    index_mask c = Z.shiftl (Z.ones b) a /\
    tag_mask c = wrap64 (Z.shiftl (Z.ones 64) (a + b)) /\
    line_size c <= set_size c /\
    nsets c * set_size c <= size c /\
    0 <= size c < 2 ^ 64 /\ 0 <= assoc c < 2 ^ 64.
Proof.
  intros Hgeo [a [Ha Hline]] [b [Hb Hsets]].
  destruct (cache_init_geometry_inv w c Hgeo)
    as (Hsz & Hln & Hws & Hss & Hss0 & Hns & (d1 & Hd1 & His) &
        (d2 & Hd2 & Hts) & Hom & Him & Htm & Hbs & _).
  assert (Rsz : 0 <= size c < 2 ^ 64) by (rewrite Hsz; apply wrap64_range).
  assert (Rln : 0 <= line_size c < 2 ^ 64) by (rewrite Hln; apply wrap64_range).
  assert (Rws : 0 <= assoc c < 2 ^ 64) by (rewrite Hws; apply wrap64_range).
  assert (Rss : 0 <= set_size c < 2 ^ 64) by (rewrite Hss; apply wrap64_range).
  assert (Ha64 : a < 64) by (apply pow2_lt_64; lia).
  assert (Pa : 0 < 2 ^ a) by (apply Z.pow_pos_nonneg; lia).
  assert (Pb : 0 < 2 ^ b) by (apply Z.pow_pos_nonneg; lia).
  (* the set size is a non-zero multiple of the line size *)
  assert (Hle : line_size c <= set_size c).
  { rewrite Hss, Hline, wrap64_mul_pow2 by lia.
    assert (Hm : 0 <= assoc c mod 2 ^ (64 - a) < 2 ^ (64 - a))
      by (apply Z.mod_pos_bound; apply Z.pow_pos_nonneg; lia).
    assert (assoc c mod 2 ^ (64 - a) <> 0).
    { intros E. apply Hss0. rewrite Hss, Hline, wrap64_mul_pow2, E by lia.
      lia. }
    nia. }
  assert (Hmul : nsets c * set_size c <= size c).
  { rewrite Hns, Z.mul_comm. apply Z.mul_div_le. lia. }
  assert (Hprod : 2 ^ (a + b) <= size c).
  { rewrite Z.pow_add_r by lia. rewrite <- Hline, <- Hsets. nia. }
  assert (Hab : a + b < 64) by (apply pow2_lt_64; lia).
  assert (Hb64 : b < 64) by lia.
  rewrite Hline, dlog2_pow2 in Hd1 by lia. injection Hd1 as <-.
  rewrite Hsets, dlog2_pow2 in Hd2 by lia. injection Hd2 as <-.
  rewrite to_int_small in His by lia.
  rewrite His, (wrap32_small a), (wrap32_small (b + a)), to_int_small in Hts
    by lia.
  exists a, b.
  split; [exact Ha|]. split; [exact Hb|]. split; [exact Hab|].
  split; [exact Hline|]. split; [exact Hsets|]. split; [exact His|].
  split; [lia|].
  split.
  { rewrite Hom, Hline, Z.ones_equiv, wrap64_small by lia. lia. }
  split.
  { rewrite His, Hts in *.
    apply shl64_inv in Him. destruct Him as [_ ->].
    rewrite Hsets, (wrap64_small (2 ^ b - 1)) by lia.
    rewrite Z.ones_equiv. replace (Z.pred (2 ^ b)) with (2 ^ b - 1) by lia.
    apply wrap64_small. rewrite Z.shiftl_mul_pow2 by lia.
    assert (2 ^ (a + b) < 2 ^ 64) by lia.
    rewrite Z.pow_add_r in * by lia. nia. }
  split.
  { apply shl64_inv in Htm. destruct Htm as [_ ->].
    rewrite Hts. replace (b + a) with (a + b) by lia. reflexivity. }
  split; [exact Hle|]. split; [exact Hmul|]. split; assumption.
Qed.

(** The geometry step is defined on every host that reports a power-of-two
    line size and a set size that is not zero and not above the cache size. *)
Lemma cache_init_geometry_defined w a :
  0 <= a ->
  wrap64 (w_sysconf w SC_LEVEL1_DCACHE_LINESIZE) = 2 ^ a ->
  wrap64 (2 ^ a * wrap64 (w_sysconf w SC_LEVEL1_DCACHE_ASSOC)) <> 0 ->
  wrap64 (2 ^ a * wrap64 (w_sysconf w SC_LEVEL1_DCACHE_ASSOC))
  <= wrap64 (w_sysconf w SC_LEVEL1_DCACHE_SIZE) ->
  exists c, cache_init_geometry w = Some c.
Proof.
  intros Ha Hline Hss0 Hle. unfold cache_init_geometry, udiv64.
  rewrite Hline.
  set (sz := wrap64 (w_sysconf w SC_LEVEL1_DCACHE_SIZE)) in *.
  set (ws := wrap64 (w_sysconf w SC_LEVEL1_DCACHE_ASSOC)) in *.
  set (ss := wrap64 (2 ^ a * ws)) in *.
  assert (Rsz : 0 <= sz < 2 ^ 64) by apply wrap64_range.
  assert (Rss : 0 <= ss < 2 ^ 64) by apply wrap64_range.
  assert (Pa : 0 < 2 ^ a) by (apply Z.pow_pos_nonneg; lia).
  assert (Ha64 : a < 64).
  { apply pow2_lt_64; [exact Ha|]. rewrite <- Hline. apply wrap64_range. }
  assert (Hlow : 2 ^ a <= ss).
  { assert (E : ss = 2 ^ a * (ws mod 2 ^ (64 - a)))
      by (apply wrap64_mul_pow2; lia).
    assert (0 <= ws mod 2 ^ (64 - a))
      by (apply Z.mod_pos_bound; apply Z.pow_pos_nonneg; lia).
    destruct (Z.eq_dec (ws mod 2 ^ (64 - a)) 0) as [Z0|Z0].
    - rewrite Z0, Z.mul_0_r in E. contradiction.
    - rewrite E. nia. }
  destruct (Z.eqb_spec ss 0) as [|_]; [contradiction|]. cbn [obind].
  rewrite dlog2_pow2 by lia. cbn [obind].
  assert (Hn1 : 1 <= sz / ss) by (apply Z.div_le_lower_bound; lia).
  assert (Hmul : ss * (sz / ss) <= sz) by (apply Z.mul_div_le; lia).
  assert (Hn2 : sz / ss < 2 ^ 64) by nia.
  rewrite dlog2_log2 by lia. cbn [obind].
  pose proof (Z.log2_nonneg (sz / ss)) as Hl0.
  pose proof (Z.log2_spec (sz / ss) ltac:(lia)) as [Hl1 _].
  assert (Hsum : a + Z.log2 (sz / ss) < 64).
  { apply pow2_lt_64; [lia|]. rewrite Z.pow_add_r by lia. nia. }
  rewrite (to_int_small a) by lia.
  rewrite (wrap32_small a), (wrap32_small (Z.log2 (sz / ss) + a)) by lia.
  rewrite (to_int_small (Z.log2 (sz / ss) + a)) by lia.
  rewrite !shl64_defined by lia. cbn [obind].
  eexists. reflexivity.
Qed.

(** Bits of the three masks. *)
Lemma mask_bits a b i :
  0 <= a -> 0 <= b -> a + b < 64 -> 0 <= i ->
  Z.testbit (Z.ones a) i = (i <? a) /\
  Z.testbit (Z.shiftl (Z.ones b) a) i = ((a <=? i) && (i <? a + b)) /\
  Z.testbit (wrap64 (Z.shiftl (Z.ones 64) (a + b))) i
    = ((a + b <=? i) && (i <? 64)).
Proof.
  intros Ha Hb Hab Hi. split; [|split].
  - apply Z.testbit_ones_nonneg; assumption.
  - destruct (Z.leb_spec a i) as [Hai|Hai]; simpl.
    + rewrite Z.shiftl_spec, Z.testbit_ones_nonneg by lia.
      destruct (Z.ltb_spec (i - a) b), (Z.ltb_spec i (a + b)); lia.
    + apply Z.shiftl_spec_low. exact Hai.
  - unfold wrap64. rewrite Z.testbit_mod_pow2 by lia.
    destruct (Z.ltb_spec i 64) as [H64|H64]; simpl.
    + destruct (Z.leb_spec (a + b) i) as [Hl|Hl]; simpl.
      * rewrite Z.shiftl_spec, Z.testbit_ones_nonneg by lia.
        destruct (Z.ltb_spec (i - (a + b)) 64); lia.
      * apply Z.shiftl_spec_low. exact Hl.
    + now rewrite andb_false_r.
Qed.

(** ** Runs of [cache_init] *)

Lemma extend_nil s : extend s [] = s.
Proof. destruct s; reflexivity. Qed.

Lemma extend_extend s e1 e2 : extend (extend s e1) e2 = extend s (e2 ++ e1).
Proof. unfold extend; simpl. now rewrite app_assoc. Qed.

Lemma calibrate_hits_run w ptr n : forall mean s,
  0 <= mean < 2 ^ 64 ->
  exists evs m,
    calibrate_hits w n ptr mean s = Some (m, extend s evs) /\
    0 <= m < 2 ^ 64.
Proof.
  induction n as [|n IH]; intros mean s Hmean.
  - exists [], mean. simpl. unfold mret. now rewrite extend_nil.
  - simpl. mstep.
    set (d := wrap64 (w_cycles w (EvFill ptr :: st_trace s) ptr)).
    destruct (IH (wrap64 (mean + d))
                (extend s [EvTimed ptr d; EvFill ptr])
                (wrap64_range _)) as (evs & m & Hrun & Hm).
    exists (evs ++ [EvTimed ptr d; EvFill ptr]), m.
    unfold extend in Hrun at 1. simpl in Hrun. rewrite Hrun.
    now rewrite extend_extend.
Qed.

Lemma calibrate_misses_run w ptr n : forall mean s,
  0 <= mean < 2 ^ 64 ->
  exists evs m,
    calibrate_misses w n ptr mean s = Some (m, extend s evs) /\
    0 <= m < 2 ^ 64.
Proof.
  induction n as [|n IH]; intros mean s Hmean.
  - exists [], mean. simpl. unfold mret. now rewrite extend_nil.
  - simpl. mstep.
    set (d := wrap64 (w_cycles w (EvFlush ptr :: st_trace s) ptr)).
    destruct (IH (wrap64 (mean + d))
                (extend s [EvTimed ptr d; EvFlush ptr])
                (wrap64_range _)) as (evs & m & Hrun & Hm).
    exists (evs ++ [EvTimed ptr d; EvFlush ptr]), m.
    unfold extend in Hrun at 1. simpl in Hrun. rewrite Hrun.
    now rewrite extend_extend.
Qed.

(** Every run of [cache_init]: the geometry step was defined; then either
    the allocation failed and -1 is returned at once, or both calibration
    loops ran, the first [size] bytes of the buffer were cleared and 0 is
    returned. *)
Lemma cache_init_inv w s r c s' :
  cache_init w s = Some (r, c, s') ->
  cache_init_geometry w = Some (geometry_of c) /\
  buffer c = w_aligned_alloc w (size c) (buffer_size c) /\
  ((r = -1 /\ buffer c = 0 /\ s' = s) \/
   (r = 0 /\ buffer c <> 0 /\
    exists evs m1 m2,
      0 <= m1 < 2 ^ 64 /\ 0 <= m2 < 2 ^ 64 /\
      hit_latency c = m1 / NTRIALS /\
      miss_latency c = m2 / NTRIALS /\
      hit_threshold c = wrap64 (hit_latency c + miss_latency c) / 2 /\
      s' = mkState (zeroed (st_mem s) (buffer c) (size c))
                   (evs ++ st_trace s) (st_affinity s))).
Proof.
  unfold cache_init. unfold mbind at 1, lift.
  destruct (cache_init_geometry w) as [c0|] eqn:Hgeo; [|discriminate].
  destruct (cache_init_geometry_inv w c0 Hgeo)
    as (_ & _ & _ & _ & _ & _ & _ & _ & _ & _ & _ & _ & Hb & Hh & Hm & Ht).
  destruct c0 as [sz ln ss ws ns om im tm ish tsh hl ml th bs bf].
  cbn [buffer hit_latency miss_latency hit_threshold] in Hb, Hh, Hm, Ht.
  subst bf hl ml th.
  cbn [with_buffer buffer size buffer_size line_size set_size assoc nsets
       offset_mask index_mask tag_mask index_shift tag_shift
       hit_latency miss_latency hit_threshold].
  set (p := w_aligned_alloc w sz bs).
  destruct (Z.eqb_spec p 0) as [Hp|Hp].
  - unfold mret. intros [= <- <- <-].
    cbn. split; [reflexivity|]. split; [reflexivity|].
    left. split; [reflexivity|]. split; [exact Hp|reflexivity].
  - unfold mbind at 1.
    destruct (calibrate_hits_run w p (Z.to_nat NTRIALS) 0 s ltac:(lia))
      as (e1 & m1 & Hrun1 & Hm1).
    rewrite Hrun1. unfold mbind at 1.
    destruct (calibrate_misses_run w p (Z.to_nat NTRIALS) 0 (extend s e1)
                ltac:(lia)) as (e2 & m2 & Hrun2 & Hm2).
    rewrite Hrun2. unfold mbind, memset, mret.
    intros [= <- <- <-].
    cbn. split; [reflexivity|]. split; [reflexivity|].
    right. split; [reflexivity|]. split; [exact Hp|].
    exists (e2 ++ e1), m1, m2.
    split; [exact Hm1|]. split; [exact Hm2|].
    split; [reflexivity|]. split; [reflexivity|]. split; [reflexivity|].
    unfold zeroed. now rewrite app_assoc.
Qed.

(** The geometry step decides whether [cache_init] is defined at all. *)
Lemma cache_init_defined w s c0 :
  cache_init_geometry w = Some c0 ->
  exists r c s', cache_init w s = Some (r, c, s').
Proof.
  intros Hgeo. unfold cache_init. unfold mbind at 1, lift. rewrite Hgeo.
  set (c1 := with_buffer c0 _).
  destruct (buffer c1 =? 0).
  - eexists _, _, _. reflexivity.
  - unfold mbind at 1.
    destruct (calibrate_hits_run w (buffer c1) (Z.to_nat NTRIALS) 0 s
                ltac:(lia)) as (e1 & m1 & Hrun1 & _).
    rewrite Hrun1. unfold mbind at 1.
    destruct (calibrate_misses_run w (buffer c1) (Z.to_nat NTRIALS) 0
                (extend s e1) ltac:(lia)) as (e2 & m2 & Hrun2 & _).
    rewrite Hrun2. unfold mbind, memset, mret.
    eexists _, _, _. reflexivity.
Qed.

(** C5: when the line size and the number of sets are powers of two, the
    three masks [cache_init] computes cover the 64-bit address word and no
    two of them share a bit. *)
Theorem masks_partition w s r c s' :
  cache_init w s = Some (r, c, s') ->
  is_pow2 (nsets c) -> is_pow2 (line_size c) ->
  1 <= nsets c /\ 1 <= line_size c /\
  Z.lor (Z.lor (offset_mask c) (index_mask c)) (tag_mask c) = 2 ^ 64 - 1 /\
  Z.land (offset_mask c) (index_mask c) = 0 /\
  Z.land (offset_mask c) (tag_mask c) = 0 /\
  Z.land (index_mask c) (tag_mask c) = 0.
Proof.
  intros Hrun Hsets Hline.
  destruct (cache_init_inv w s r c s' Hrun) as (Hgeo & _ & _).
  destruct (pow2_geometry w (geometry_of c) Hgeo Hline Hsets)
    as (a & b & Ha & Hb & Hab & Hl & Hn & _ & _ & Hom & Him & Htm & _).
  fields Hl; fields Hn; fields Hom; fields Him; fields Htm.
  rewrite Hl, Hn, Hom, Him, Htm.
  assert (0 < 2 ^ a) by (apply Z.pow_pos_nonneg; lia).
  assert (0 < 2 ^ b) by (apply Z.pow_pos_nonneg; lia).
  split; [lia|]. split; [lia|].
  change (2 ^ 64 - 1) with (Z.ones 64).
  repeat split; apply Z.bits_inj'; intros i Hi;
    destruct (mask_bits a b i Ha Hb Hab Hi) as (B1 & B2 & B3);
    rewrite ?Z.lor_spec, ?Z.land_spec, ?Z.bits_0, ?B1, ?B2, ?B3,
      ?Z.testbit_ones_nonneg by lia;
    destruct (Z.ltb_spec i a), (Z.leb_spec a i), (Z.ltb_spec i (a + b)),
      (Z.leb_spec (a + b) i), (Z.ltb_spec i 64); simpl; lia || reflexivity.
Qed.

(** ** Layout of the ways of a set in the buffer *)

Lemma pow2_pos e : 0 <= e -> 0 < 2 ^ e.
Proof. intros He. apply Z.pow_pos_nonneg; lia. Qed.

Section Layout.

Variables (c : cache_t) (a b : Z).

Hypothesis Ha : 0 <= a.
Hypothesis Hb : 0 <= b.
Hypothesis Hshift : index_shift c = a.
Hypothesis Hsets : nsets c = 2 ^ b.
(* the block that holds [assoc] strides is in the address space *)
Hypothesis Hbase : 0 <= buffer c.
Hypothesis Hfit : buffer c + assoc c * (2 ^ b * 2 ^ a) <= 2 ^ 64.
(* the buffer starts on a multiple of the stride *)
Hypothesis Halign : buffer c mod (2 ^ b * 2 ^ a) = 0.

Lemma way_ptr_linear setno k :
  0 <= setno < 2 ^ b -> Z.of_nat k < assoc c ->
  way_ptr c setno k
  = buffer c + setno * 2 ^ a + Z.of_nat k * (2 ^ b * 2 ^ a).
Proof.
  intros Hset.
  pose proof (pow2_pos a Ha) as Pa. pose proof (pow2_pos b Hb) as Pb.
  assert (Hoff : 0 <= setno * 2 ^ a < 2 ^ b * 2 ^ a) by nia.
  assert (Hstride : 0 < 2 ^ b * 2 ^ a) by nia.
  induction k as [|k IH]; intros Hk.
  - assert (1 * (2 ^ b * 2 ^ a) <= assoc c * (2 ^ b * 2 ^ a))
      by (apply Z.mul_le_mono_nonneg_r; lia).
    cbn [way_ptr]. rewrite Hshift, Z.shiftl_mul_pow2 by lia.
    rewrite (wrap64_small (setno * 2 ^ a)) by lia.
    rewrite wrap64_small by lia. simpl. lia.
  - assert ((Z.of_nat k + 2) * (2 ^ b * 2 ^ a)
            <= assoc c * (2 ^ b * 2 ^ a))
      by (apply Z.mul_le_mono_nonneg_r; lia).
    cbn [way_ptr]. rewrite IH by lia.
    rewrite Hshift, Hsets, Z.shiftl_mul_pow2 by lia.
    rewrite (wrap64_small (2 ^ b * 2 ^ a)) by lia.
    rewrite wrap64_small by lia. lia.
Qed.

Lemma way_addr_linear setno k :
  0 <= setno < 2 ^ b -> 0 <= k < assoc c ->
  way_addr c setno k = buffer c + setno * 2 ^ a + k * (2 ^ b * 2 ^ a).
Proof.
  intros Hset Hk. unfold way_addr.
  rewrite way_ptr_linear by (rewrite ?Z2Nat.id; lia).
  rewrite Z2Nat.id by lia. reflexivity.
Qed.

(** The index field of every way is the set number. *)
Lemma way_index_bits setno k :
  0 <= setno < 2 ^ b -> 0 <= k < assoc c ->
  Z.land (Z.shiftr (way_addr c setno k) (index_shift c)) (nsets c - 1)
  = setno.
Proof.
  intros Hset Hk. rewrite way_addr_linear by assumption.
  pose proof (pow2_pos a Ha) as Pa. pose proof (pow2_pos b Hb) as Pb.
  rewrite Hshift, Hsets, Z.shiftr_div_pow2 by lia.
  replace (2 ^ b - 1) with (Z.ones b) by (rewrite Z.ones_equiv; lia).
  rewrite Z.land_ones by lia.
  apply Z.mod_divide in Halign; [|lia]. destruct Halign as [m Hm].
  rewrite Hm.
  replace (m * (2 ^ b * 2 ^ a) + setno * 2 ^ a + k * (2 ^ b * 2 ^ a))
    with ((setno + (m + k) * 2 ^ b) * 2 ^ a) by ring.
  rewrite Z.div_mul by lia.
  rewrite Z.mod_add by lia.
  apply Z.mod_small. exact Hset.
Qed.

(** The tag field of way [k] is the tag of the buffer plus [k]. *)
Lemma way_tag_bits setno k :
  0 <= setno < 2 ^ b -> 0 <= k < assoc c ->
  Z.shiftr (way_addr c setno k) (a + b)
  = buffer c / (2 ^ b * 2 ^ a) + k.
Proof.
  intros Hset Hk. rewrite way_addr_linear by assumption.
  pose proof (pow2_pos a Ha) as Pa. pose proof (pow2_pos b Hb) as Pb.
  rewrite Z.shiftr_div_pow2 by lia.
  rewrite Z.pow_add_r by lia. rewrite (Z.mul_comm (2 ^ a)).
  apply Z.mod_divide in Halign; [|lia]. destruct Halign as [m Hm].
  rewrite Hm, Z.div_mul by lia.
  replace (m * (2 ^ b * 2 ^ a) + setno * 2 ^ a + k * (2 ^ b * 2 ^ a))
    with (setno * 2 ^ a + (m + k) * (2 ^ b * 2 ^ a)) by ring.
  rewrite Z.div_add by lia.
  rewrite Z.div_small by nia. lia.
Qed.

End Layout.

Lemma ways_spec c setno p :
  In p (ways c setno) <-> exists k, 0 <= k < assoc c /\ p = way_addr c setno k.
Proof.
  unfold ways, way_addr. rewrite in_map_iff. split.
  - intros (j & <- & Hj). apply in_seq in Hj.
    exists (Z.of_nat j). rewrite Nat2Z.id. split; [lia|reflexivity].
  - intros (k & Hk & ->). exists (Z.to_nat k). split; [reflexivity|].
    apply in_seq. lia.
Qed.

(** A power of two that is at most another one divides it. *)
Lemma pow2_divide x y : is_pow2 x -> is_pow2 y -> x <= y -> (x | y).
Proof.
  intros [e [He ->]] [f [Hf ->]] Hle.
  apply Z.pow_le_mono_r_iff in Hle; [|lia|lia].
  exists (2 ^ (f - e)). rewrite <- Z.pow_add_r by lia. f_equal. lia.
Qed.

(** What the geometry gives the layout lemmas, whatever the buffer is: the
    block of [assoc] strides fits in the first [size] bytes of the buffer. *)
Lemma geometry_layout w s c s' :
  cache_init w s = Some (0, c, s') ->
  is_pow2 (line_size c) -> is_pow2 (nsets c) ->
  buffer_size c = size c * assoc c ->
  exists a b,
    0 <= a /\ 0 <= b /\
    line_size c = 2 ^ a /\ nsets c = 2 ^ b /\
    index_shift c = a /\ tag_shift c = a + b /\
    1 <= assoc c /\
    assoc c * (2 ^ b * 2 ^ a) <= size c /\
    size c <= buffer_size c /\
    0 <= size c /\ buffer_size c < 2 ^ 64.
Proof.
  intros Hrun Hline Hsets Hbs.
  destruct (cache_init_inv w s 0 c s' Hrun) as (Hgeo & _ & _).
  destruct (pow2_geometry w (geometry_of c) Hgeo Hline Hsets)
    as (a & b & Ha & Hb & Hab & Hl & Hn & Hish & Htsh & _ & _ & _
        & Hle & Hmul & Rsz & Rws).
  destruct (cache_init_geometry_inv w (geometry_of c) Hgeo)
    as (_ & _ & _ & Hss & Hss0 & _ & _ & _ & _ & _ & _ & Hbsw & _).
  fields Hl; fields Hn; fields Hish; fields Htsh; fields Hle; fields Hmul;
    fields Rsz; fields Rws; fields Hss; fields Hss0; fields Hbsw.
  assert (Pa : 0 < 2 ^ a) by (apply Z.pow_pos_nonneg; lia).
  assert (Pb : 0 < 2 ^ b) by (apply Z.pow_pos_nonneg; lia).
  assert (Rprod : 0 <= size c * assoc c < 2 ^ 64).
  { rewrite <- Hbs, Hbsw. apply wrap64_range. }
  assert (Hws : 1 <= assoc c).
  { destruct (Z.eq_dec (assoc c) 0) as [E|E]; [|lia].
    exfalso. apply Hss0. rewrite Hss, E, Z.mul_0_r. reflexivity. }
  assert (Hss_le : set_size c <= size c) by (rewrite Hn in Hmul; nia).
  assert (Hexact : set_size c = line_size c * assoc c).
  { rewrite Hss. apply wrap64_small. split; [nia|].
    apply Z.le_lt_trans with (size c * assoc c); [|lia].
    apply Z.mul_le_mono_nonneg_r; lia. }
  assert (Hblock : assoc c * (2 ^ b * 2 ^ a) <= size c).
  { rewrite Hn, Hexact, Hl in Hmul. lia. }
  exists a, b.
  split; [exact Ha|]. split; [exact Hb|]. split; [exact Hl|].
  split; [exact Hn|]. split; [exact Hish|]. split; [exact Htsh|].
  split; [exact Hws|]. split; [exact Hblock|].
  split; [rewrite Hbs; nia|]. split; lia.
Qed.

(** With the buffer placed: the facts the layout lemmas start from. *)
Lemma buffer_layout w s c s' :
  cache_init w s = Some (0, c, s') ->
  is_pow2 (line_size c) -> is_pow2 (nsets c) ->
  buffer_size c = size c * assoc c ->
  placed c ->
  exists a b,
    0 <= a /\ 0 <= b /\
    line_size c = 2 ^ a /\ nsets c = 2 ^ b /\
    index_shift c = a /\ tag_shift c = a + b /\
    1 <= assoc c /\
    assoc c * (2 ^ b * 2 ^ a) <= size c /\
    size c <= buffer_size c /\
    0 < buffer c /\ buffer c + buffer_size c <= 2 ^ 64 /\
    buffer c mod (2 ^ b * 2 ^ a) = 0.
Proof.
  intros Hrun Hline Hsets Hbs (Hpos & Hend & Halign).
  destruct (geometry_layout w s c s' Hrun Hline Hsets Hbs)
    as (a & b & Ha & Hb & Hl & Hn & Hish & Htsh & Hws & Hblock & Hsize & _).
  exists a, b. rewrite Hn, Hl in Halign.
  repeat (split; [assumption|]). exact Halign.
Qed.

(** The call [aligned_alloc (size, buffer_size)] of line 171 places the
    buffer: the stride is a power of two that is at most [size], so it
    divides the power of two the block is aligned to. *)
Lemma aligned_alloc_places w s c s' :
  aligned_alloc_ok w ->
  cache_init w s = Some (0, c, s') ->
  is_pow2 (line_size c) -> is_pow2 (nsets c) ->
  buffer_size c = size c * assoc c ->
  placed c.
Proof.
  intros Halloc Hrun Hline Hsets Hbs.
  destruct (geometry_layout w s c s' Hrun Hline Hsets Hbs)
    as (a & b & Ha & Hb & Hl & Hn & _ & _ & Hws & Hblock & _).
  destruct (cache_init_inv w s 0 c s' Hrun) as (_ & Hbuf & Hcase).
  destruct Hcase as [(Hr & _)|(_ & Hnz & _)]; [discriminate|].
  pose proof (Halloc (size c) (buffer_size c)) as Hal. cbv zeta in Hal.
  rewrite <- Hbuf in Hal.
  destruct (Hal Hnz) as (Hpos & Hend & P & HP & Hle & Hmod).
  assert (Pa : 0 < 2 ^ a) by (apply Z.pow_pos_nonneg; lia).
  assert (Pb : 0 < 2 ^ b) by (apply Z.pow_pos_nonneg; lia).
  assert (Hstride : 2 ^ b * 2 ^ a <= size c) by nia.
  split; [exact Hpos|]. split; [exact Hend|].
  rewrite Hn, Hl. apply Z.mod_divide; [lia|].
  apply Z.divide_trans with P.
  - apply pow2_divide; [|exact HP|lia].
    exists (b + a). split; [lia|]. rewrite Z.pow_add_r by lia. reflexivity.
  - destruct HP as [e [He ->]].
    apply Z.mod_divide; [|exact Hmod].
    pose proof (Z.pow_pos_nonneg 2 e ltac:(lia) He). lia.
Qed.

(** C1: on a descriptor [cache_init] built, with the line size and the
    number of sets powers of two and [buffer_size = size * assoc], and with
    the buffer in the address space on a multiple of the stride (whether or
    not the cache size is a power of two), the address of way [k] of set
    [setno] is
    [buffer + (setno << index_shift) + k * (nsets << index_shift)]; its line
    lies inside the owned buffer, its index bits are [setno], and two
    different ways of the set have different addresses and different tag
    bits.  These addresses are the ones the three set operations touch. *)
Theorem probe_addresses w s c s' :
  cache_init w s = Some (0, c, s') ->
  is_pow2 (line_size c) -> is_pow2 (nsets c) ->
  buffer_size c = size c * assoc c ->
  placed c ->
  forall setno, 0 <= setno < nsets c ->
    (forall k, 0 <= k < assoc c ->
       way_addr c setno k
       = buffer c + Z.shiftl setno (index_shift c)
         + k * Z.shiftl (nsets c) (index_shift c) /\
       0 <= way_addr c setno k - buffer c /\
       way_addr c setno k - buffer c + line_size c <= buffer_size c /\
       Z.land (Z.shiftr (way_addr c setno k) (index_shift c)) (nsets c - 1)
       = setno) /\
    (forall k1 k2, 0 <= k1 < assoc c -> 0 <= k2 < assoc c -> k1 <> k2 ->
       way_addr c setno k1 <> way_addr c setno k2 /\
       Z.shiftr (way_addr c setno k1) (tag_shift c)
       <> Z.shiftr (way_addr c setno k2) (tag_shift c)) /\
    (forall p, In p (ways c setno) <->
               exists k, 0 <= k < assoc c /\ p = way_addr c setno k) /\
    (forall s0, exists e1 e2,
       cache_fill_set c setno s0 = Some (0, extend s0 e1) /\
       touched e1 = ways c setno /\
       cache_flush_set c setno s0 = Some (0, extend s0 e2) /\
       touched e2 = ways c setno) /\
    (forall s0, assoc c <= INT_MAX -> exists e3 n,
       cache_count_hits w c setno s0 = Some (n, extend s0 e3) /\
       touched e3 = ways c setno).
Proof.
  intros Hrun Hline Hsets Hbs Hplaced setno Hset.
  destruct (buffer_layout w s c s' Hrun Hline Hsets Hbs Hplaced)
    as (a & b & Ha & Hb & Hl & Hn & Hish & Htsh & Hws & Hblock & Hsize
        & Hpos & Hend & Halign).
  assert (Pa : 0 < 2 ^ a) by (apply Z.pow_pos_nonneg; lia).
  assert (Pb : 0 < 2 ^ b) by (apply Z.pow_pos_nonneg; lia).
  assert (Hbase : 0 <= buffer c) by lia.
  assert (Hfit : buffer c + assoc c * (2 ^ b * 2 ^ a) <= 2 ^ 64) by lia.
  assert (Hset' : 0 <= setno < 2 ^ b) by lia.
  assert (Hlin : forall k, 0 <= k < assoc c ->
            way_addr c setno k
            = buffer c + setno * 2 ^ a + k * (2 ^ b * 2 ^ a)).
  { intros k Hk. now apply (way_addr_linear c a b). }
  assert (Hsh : 0 <= index_shift c < 64).
  { rewrite Hish. split; [exact Ha|].
    apply pow2_lt_64; [exact Ha|]. nia. }
  split; [|split; [|split; [|split]]].
  - intros k Hk. rewrite (Hlin k Hk).
    rewrite Hish, Hn, !Z.shiftl_mul_pow2 by lia.
    split; [reflexivity|]. split; [nia|]. split.
    + assert ((k + 1) * (2 ^ b * 2 ^ a) <= assoc c * (2 ^ b * 2 ^ a))
        by (apply Z.mul_le_mono_nonneg_r; lia).
      rewrite Hl. nia.
    + rewrite <- (Hlin k Hk), <- Hish, <- Hn.
      now apply (way_index_bits c a b).
  - intros k1 k2 Hk1 Hk2 Hne. split.
    + rewrite (Hlin k1 Hk1), (Hlin k2 Hk2). nia.
    + rewrite Htsh.
      rewrite (way_tag_bits c a b), (way_tag_bits c a b) by assumption.
      lia.
  - apply ways_spec.
  - intros s0.
    destruct (cache_fill_set_run c setno s0 Hset Hsh) as (e1 & H1 & T1 & _).
    destruct (cache_flush_set_run c setno s0 Hset Hsh) as (e2 & H2 & T2 & _).
    exists e1, e2. repeat split; assumption.
  - intros s0 Hmax.
    destruct (cache_count_hits_run w c setno s0 Hset Hsh Hmax)
      as (e3 & H3 & T3 & _).
    exists e3, (hits_in c e3). split; assumption.
Qed.

(** ** Concrete hosts *)

Lemma is_pow2b_sound n : is_pow2b n = true -> is_pow2 n.
Proof.
  unfold is_pow2b. intros H. apply andb_prop in H. destruct H as [_ H].
  apply Z.eqb_eq in H. exists (Z.log2 n).
  split; [apply Z.log2_nonneg|exact H].
Qed.

Lemma host_aligned_alloc_ok sz line nways base hit miss ncpus :
  aligned_alloc_ok (host sz line nways base hit miss ncpus).
Proof.
  intros alignment n p. subst p. cbn [host w_aligned_alloc].
  destruct (is_pow2b alignment) eqn:Hp; cbn [andb]; [|congruence].
  destruct (Z.eqb_spec (base mod alignment) 0); cbn [andb]; [|congruence].
  destruct (Z.ltb_spec 0 base); cbn [andb]; [|congruence].
  destruct (Z.leb_spec (base + n) (2 ^ 64)); [|congruence].
  intros _. split; [assumption|]. split; [assumption|].
  exists alignment. split; [now apply is_pow2b_sound|]. split; [lia|assumption].
Qed.

Lemma icelake_aligned_alloc_ok : aligned_alloc_ok icelake.
Proof.
  intros alignment n p. subst p. cbn [icelake w_aligned_alloc].
  destruct (Z.leb_spec alignment (2 ^ 20)); cbn [andb]; [|congruence].
  destruct (Z.leb_spec (2 ^ 20 + n) (2 ^ 64)); [|congruence].
  intros _. split; [lia|]. split; [assumption|].
  exists (2 ^ 20). split; [exists 20; split; [lia|reflexivity]|].
  split; [assumption|reflexivity].
Qed.

(** A run, from the value it returns and the descriptor it writes. *)
Lemma run_of_result w s r c :
  option_map fst (cache_init w s) = Some (r, c) ->
  exists s', cache_init w s = Some (r, c, s').
Proof.
  destruct (cache_init w s) as [[[r' c'] s']|]; simpl; [|discriminate].
  intros [= -> ->]. now exists s'.
Qed.

Lemma i7_init : exists s', cache_init i7 boot = Some (0, i7_cache, s').
Proof. apply run_of_result. vm_compute. reflexivity. Qed.

Lemma flat_init : exists s', cache_init flat boot = Some (0, flat_cache, s').
Proof. apply run_of_result. vm_compute. reflexivity. Qed.

Lemma direct_init :
  exists s', cache_init direct boot = Some (0, direct_cache, s').
Proof. apply run_of_result. vm_compute. reflexivity. Qed.

Lemma icelake_init :
  exists s', cache_init icelake boot = Some (0, icelake_cache, s').
Proof. apply run_of_result. vm_compute. reflexivity. Qed.

Lemma i7_placed : placed i7_cache.
Proof. unfold placed, i7_cache; simpl. repeat split; lia. Qed.

Lemma direct_placed : placed direct_cache.
Proof. unfold placed, direct_cache; simpl. repeat split; lia. Qed.

Lemma icelake_placed : placed icelake_cache.
Proof. unfold placed, icelake_cache; simpl. repeat split; lia. Qed.

(** ** Calibration and classification *)

Lemma cache_init_shift w s r c s' :
  cache_init w s = Some (r, c, s') -> 0 <= index_shift c < 64.
Proof.
  intros Hrun.
  destruct (cache_init_inv w s r c s' Hrun) as (Hgeo & _).
  destruct (cache_init_geometry_inv w (geometry_of c) Hgeo)
    as (_ & _ & _ & _ & _ & _ & _ & _ & _ & Him & _).
  fields Him. apply shl64_inv in Him. exact (proj1 Him).
Qed.

(** The two latencies are means of 1024 64-bit samples, so their sum does
    not wrap. *)
Lemma cache_init_threshold w s c s' :
  cache_init w s = Some (0, c, s') ->
  0 <= hit_latency c /\ 0 <= miss_latency c /\
  hit_threshold c = (hit_latency c + miss_latency c) / 2.
Proof.
  intros Hrun.
  destruct (cache_init_inv w s 0 c s' Hrun) as (_ & _ & Hcase).
  destruct Hcase as [(Hr & _)|(_ & _ & evs & m1 & m2 & R1 & R2 & Hh & Hm
                               & Ht & _)]; [discriminate|].
  unfold NTRIALS in *.
  assert (0 <= m1 / 1024 < 2 ^ 54).
  { split; [apply Z.div_pos; lia|apply Z.div_lt_upper_bound; lia]. }
  assert (0 <= m2 / 1024 < 2 ^ 54).
  { split; [apply Z.div_pos; lia|apply Z.div_lt_upper_bound; lia]. }
  rewrite Ht, wrap64_small by lia. lia.
Qed.


(** C2, as the code has it: a calibration with [hit_latency >= miss_latency]
    still returns 0, with the mean installed as threshold; -1 is returned
    exactly when the allocation failed. *)
Theorem calibration_not_validated w s r c s' :
  cache_init w s = Some (r, c, s') ->
  (buffer c <> 0 -> hit_latency c >= miss_latency c ->
     r = 0 /\ hit_threshold c = (hit_latency c + miss_latency c) / 2) /\
  (r = -1 <-> buffer c = 0).
Proof.
  intros Hrun.
  destruct (cache_init_inv w s r c s' Hrun) as (_ & _ & Hcase).
  destruct Hcase as [(-> & Hb & _)|(-> & Hb & _)].
  - split; [intros Hnz; contradiction|]. split; intros _; [exact Hb|reflexivity].
  - split.
    + intros _ _. split; [reflexivity|].
      exact (proj2 (proj2 (cache_init_threshold w s c s' Hrun))).
    + split; [discriminate|]. intros E. contradiction.
Qed.

(** ** The escape test of [cache_count_hits] *)


(** ** The buffer after [cache_init] *)

(** What [cache_init] leaves in memory: zeros in the first [size] bytes of
    the buffer, and the former contents everywhere else. *)
Lemma cache_init_memory w s c s' :
  cache_init w s = Some (0, c, s') ->
  st_mem s' = zeroed (st_mem s) (buffer c) (size c).
Proof.
  intros Hrun.
  destruct (cache_init_inv w s 0 c s' Hrun) as (_ & _ & Hcase).
  destruct Hcase as [(Hr & _)|(_ & _ & evs & m1 & m2 & _ & _ & _ & _ & _
                               & ->)]; [discriminate|].
  reflexivity.
Qed.

(** C9 on the 8-way host: the buffer has 262144 bytes, [memset] is given
    [size] = 32768, and the byte at offset 32768 of the buffer still holds
    what the allocation left there. *)
Theorem buffer_tail_not_cleared :
  exists s',
    cache_init i7 boot = Some (0, i7_cache, s') /\
    buffer_size i7_cache = 262144 /\
    0 <= 32768 < buffer_size i7_cache /\
    st_mem s' (buffer i7_cache + 32768) = st_mem boot (buffer i7_cache + 32768)
    /\ st_mem s' (buffer i7_cache + 32768) <> 0.
Proof.
  destruct i7_init as [s' E]. exists s'.
  split; [exact E|]. rewrite (cache_init_memory _ _ _ _ E).
  vm_compute. repeat split; congruence.
Qed.

(** ** Thread affinity *)

(** C10, as the code has it: [pin_current_thread] returns 0 for every CPU
    identifier; for one the host does not have, the affinity of the thread
    stays what it was. *)
Theorem pin_current_thread_returns_zero w cpuno s :
  exists s',
    pin_current_thread w cpuno s = Some (0, s') /\
    (~ 0 <= cpuno < w_ncpus w -> s' = s).
Proof.
  unfold pin_current_thread, mbind, mret, pthread_setaffinity_np, CPU_SET,
    CPU_ZERO.
  destruct ((0 <=? cpuno) && (cpuno <? CPU_SETSIZE)); cbn [filter].
  - destruct (Z.leb_spec 0 cpuno), (Z.ltb_spec cpuno (w_ncpus w));
      cbn [andb]; eexists; (split; [reflexivity|]); intros Hout;
      try reflexivity; lia.
  - eexists. split; [reflexivity|]. intros _. reflexivity.
Qed.

(** ** The claims on concrete hosts *)

Lemma pow2_64 : is_pow2 64.
Proof. exists 6. split; [lia|reflexivity]. Qed.

Lemma probe_addresses_witness :
  exists s',
    cache_init icelake boot = Some (0, icelake_cache, s') /\
    ~ is_pow2 (size icelake_cache) /\
    forall k, 0 <= k < assoc icelake_cache ->
      way_addr icelake_cache 5 k
      = buffer icelake_cache + Z.shiftl 5 (index_shift icelake_cache)
        + k * Z.shiftl (nsets icelake_cache) (index_shift icelake_cache) /\
      0 <= way_addr icelake_cache 5 k - buffer icelake_cache /\
      way_addr icelake_cache 5 k - buffer icelake_cache
      + line_size icelake_cache <= buffer_size icelake_cache /\
      Z.land (Z.shiftr (way_addr icelake_cache 5 k)
                       (index_shift icelake_cache))
             (nsets icelake_cache - 1) = 5.
Proof.
  destruct icelake_init as [s' E]. exists s'. split; [exact E|].
  split.
  { intros [e [He Hsz]]. cbn in Hsz.
    assert (e < 16).
    { apply (Z.pow_lt_mono_r_iff 2); [lia|lia|]. rewrite <- Hsz. lia. }
    assert (15 < e).
    { apply (Z.pow_lt_mono_r_iff 2); [lia|lia|]. rewrite <- Hsz. lia. }
    lia. }
  refine (proj1 (probe_addresses icelake boot icelake_cache s' E _ _ _
                   icelake_placed 5 _)).
  - exact pow2_64.
  - exact pow2_64.
  - reflexivity.
  - unfold icelake_cache; simpl; lia.
Defined.


Lemma masks_partition_witness :
  Z.lor (Z.lor 63 4032) (2 ^ 64 - 4096) = 2 ^ 64 - 1 /\
  Z.land 63 4032 = 0 /\
  Z.land 63 (2 ^ 64 - 4096) = 0 /\
  Z.land 4032 (2 ^ 64 - 4096) = 0.
Proof.
  destruct i7_init as [s' E].
  exact (proj2 (proj2 (masks_partition i7 boot 0 i7_cache s' E
                         pow2_64 pow2_64))).
Defined.

Lemma dlog2_floor_log2_witness :
  exists r, dlog2 1000 = Some r /\ r = Z.log2 1000 /\
            0 <= r /\ 2 ^ r <= 1000 < 2 ^ (r + 1).
Proof.
  apply (proj2 (proj2 (proj2 dlog2_floor_log2)) 1000). lia.
Defined.


(** C2 refuted as stated: on a host where a hit and a miss both take 100
    cycles, calibration measures [hit_latency >= miss_latency] and
    [cache_init] returns 0 with the threshold 100 installed. *)
Lemma calibration_failure_accepted :
  exists s',
    cache_init flat boot = Some (0, flat_cache, s') /\
    hit_latency flat_cache >= miss_latency flat_cache /\
    hit_threshold flat_cache = 100.
Proof.
  destruct flat_init as [s' E]. exists s'.
  split; [exact E|]. split; [unfold flat_cache; simpl; lia|reflexivity].
Qed.

Lemma calibration_not_validated_witness :
  exists s',
    cache_init flat boot = Some (0, flat_cache, s') /\
    hit_latency flat_cache >= miss_latency flat_cache /\
    0 = 0 /\
    hit_threshold flat_cache
    = (hit_latency flat_cache + miss_latency flat_cache) / 2.
Proof.
  destruct flat_init as [s' E]. exists s'. split; [exact E|].
  assert (Hge : hit_latency flat_cache >= miss_latency flat_cache)
    by (unfold flat_cache; simpl; lia).
  split; [exact Hge|].
  apply (proj1 (calibration_not_validated flat boot 0 flat_cache s' E)).
  - unfold flat_cache; simpl; lia.
  - exact Hge.
Defined.



(** C10 refuted as stated: the host has CPUs 0 to 3; for CPU 99 the kernel
    refuses the mask with [EINVAL] and [pin_current_thread] returns 0. *)
Lemma invalid_cpu_reports_success :
  ~ 0 <= 99 < w_ncpus i7 /\
  pthread_setaffinity_np i7 (CPU_SET 99 CPU_ZERO) boot = Some (EINVAL, boot) /\
  pin_current_thread i7 99 boot = Some (0, boot).
Proof.
  split; [simpl; lia|]. split; reflexivity.
Qed.

Lemma pin_current_thread_returns_zero_witness :
  exists s',
    pin_current_thread i7 99 boot = Some (0, s') /\
    (~ 0 <= 99 < w_ncpus i7 -> s' = boot).
Proof.
  exact (pin_current_thread_returns_zero i7 99 boot).
Defined.

(** * Further properties of the code *)

(** ** Edge behaviour of [cache_init] *)

(** X1: when [aligned_alloc] returns [NULL], [cache_init] returns -1 at once:
    the descriptor holds the geometry with a null buffer and zero latencies,
    and no access was timed and no byte written. *)
Theorem cache_init_allocation_failure w s c0 :
  cache_init_geometry w = Some c0 ->
  w_aligned_alloc w (size c0) (buffer_size c0) = 0 ->
  cache_init w s = Some (-1, c0, s) /\
  buffer c0 = 0 /\ hit_latency c0 = 0 /\ miss_latency c0 = 0 /\
  hit_threshold c0 = 0.
Proof.
  intros Hgeo Hnull.
  destruct (cache_init_geometry_inv w c0 Hgeo)
    as (_ & _ & _ & _ & _ & _ & _ & _ & _ & _ & _ & _ & Hb & Hh & Hm & Ht).
  split; [|repeat split; assumption].
  unfold cache_init. unfold mbind at 1, lift. rewrite Hgeo, Hnull.
  destruct c0 as [sz ln ss ws ns om im tm ish tsh hl ml th bs bf].
  cbn in Hb. subst bf. reflexivity.
Qed.

Lemma cache_init_allocation_failure_witness :
  exists c0,
    cache_init_geometry exhausted = Some c0 /\
    cache_init exhausted boot = Some (-1, c0, boot) /\
    buffer c0 = 0 /\ hit_latency c0 = 0 /\ miss_latency c0 = 0 /\
    hit_threshold c0 = 0.
Proof.
  eexists. split; [vm_compute; reflexivity|].
  apply (cache_init_allocation_failure exhausted boot); reflexivity.
Defined.

(** X2: on every host that reports a power-of-two line size and a set size
    that is neither zero nor above the cache size, [cache_init] is defined:
    it returns 0 or -1, with at least one set and shifts below 64. *)
Theorem cache_init_returns w s a :
  0 <= a ->
  wrap64 (w_sysconf w SC_LEVEL1_DCACHE_LINESIZE) = 2 ^ a ->
  wrap64 (2 ^ a * wrap64 (w_sysconf w SC_LEVEL1_DCACHE_ASSOC)) <> 0 ->
  wrap64 (2 ^ a * wrap64 (w_sysconf w SC_LEVEL1_DCACHE_ASSOC))
  <= wrap64 (w_sysconf w SC_LEVEL1_DCACHE_SIZE) ->
  exists r c s',
    cache_init w s = Some (r, c, s') /\
    (r = 0 \/ r = -1) /\
    1 <= nsets c /\ index_shift c = a /\
    0 <= tag_shift c < 64.
Proof.
  intros Ha Hline Hss0 Hle.
  destruct (cache_init_geometry_defined w a Ha Hline Hss0 Hle) as [c0 Hgeo].
  destruct (cache_init_defined w s c0 Hgeo) as (r & c & s' & Hrun).
  exists r, c, s'. split; [exact Hrun|].
  destruct (cache_init_inv w s r c s' Hrun) as (Hgeo' & _ & Hcase).
  split; [destruct Hcase as [(-> & _)|(-> & _)]; auto|].
  destruct (cache_init_geometry_inv w (geometry_of c) Hgeo')
    as (Hsz & Hln & Hws & Hss & _ & Hns & (d1 & Hd1 & His) & _ & _ & _
        & Htm & _).
  fields Hsz; fields Hln; fields Hws; fields Hss; fields Hns; fields Hd1;
    fields His; fields Htm.
  rewrite Hln, Hline in Hss, Hd1. rewrite <- Hws, <- Hss, <- Hsz in Hle.
  rewrite <- Hws, <- Hss in Hss0.
  assert (Rss : 0 <= set_size c < 2 ^ 64)
    by (rewrite Hss; apply wrap64_range).
  assert (Ha64 : a < 64).
  { apply pow2_lt_64; [exact Ha|]. rewrite <- Hline. apply wrap64_range. }
  split; [rewrite Hns; apply Z.div_le_lower_bound; lia|].
  split.
  - rewrite dlog2_pow2 in Hd1 by lia. injection Hd1 as <-.
    rewrite His. apply to_int_small. lia.
  - apply shl64_inv in Htm. exact (proj1 Htm).
Qed.

Lemma cache_init_returns_witness :
  exists r c s',
    cache_init i7 boot = Some (r, c, s') /\
    (r = 0 \/ r = -1) /\
    1 <= nsets c /\ index_shift c = 6 /\
    0 <= tag_shift c < 64.
Proof.
  apply (cache_init_returns i7 boot 6).
  - lia.
  - reflexivity.
  - vm_compute. discriminate.
  - vm_compute. discriminate.
Defined.

(** X3: a host that reports a zero line size or a zero associativity makes
    the set size zero, and [cache_init] divides the cache size by it: the
    call has no defined result. *)
Theorem cache_init_zero_geometry w s :
  wrap64 (w_sysconf w SC_LEVEL1_DCACHE_LINESIZE) = 0 \/
  wrap64 (w_sysconf w SC_LEVEL1_DCACHE_ASSOC) = 0 ->
  cache_init w s = None.
Proof.
  intros Hzero. unfold cache_init. unfold mbind at 1, lift.
  unfold cache_init_geometry, udiv64.
  destruct Hzero as [-> | ->]; rewrite ?Z.mul_0_r; reflexivity.
Qed.

Lemma cache_init_zero_geometry_witness :
  cache_init (host 32768 64 0 (2 ^ 20) 40 200 4) boot = None.
Proof.
  apply cache_init_zero_geometry. right. reflexivity.
Defined.

(** X4: a host whose cache is smaller than one set (and whose line size is a
    power of two above 1) is accepted: the number of sets is 0, the tag
    shift is one below the index shift because [dlog2 0] wraps, and every set
    operation refuses every set index. *)
Theorem cache_init_no_sets w s a :
  1 <= a ->
  wrap64 (w_sysconf w SC_LEVEL1_DCACHE_LINESIZE) = 2 ^ a ->
  wrap64 (2 ^ a * wrap64 (w_sysconf w SC_LEVEL1_DCACHE_ASSOC)) <> 0 ->
  wrap64 (w_sysconf w SC_LEVEL1_DCACHE_SIZE)
  < wrap64 (2 ^ a * wrap64 (w_sysconf w SC_LEVEL1_DCACHE_ASSOC)) ->
  exists r c s',
    cache_init w s = Some (r, c, s') /\
    nsets c = 0 /\ index_shift c = a /\ tag_shift c = a - 1 /\
    forall setno s0, 0 <= setno ->
      cache_fill_set c setno s0 = Some (-1, s0) /\
      cache_flush_set c setno s0 = Some (-1, s0) /\
      cache_count_hits w c setno s0 = Some (-1, s0).
Proof.
  intros Ha Hline Hss0 Hlt.
  assert (Ha64 : a < 64).
  { apply pow2_lt_64; [lia|]. rewrite <- Hline. apply wrap64_range. }
  assert (Hgeo : exists c0, cache_init_geometry w = Some c0 /\
            nsets c0 = 0 /\ index_shift c0 = a /\ tag_shift c0 = a - 1).
  { unfold cache_init_geometry, udiv64. rewrite Hline.
    set (sz := wrap64 (w_sysconf w SC_LEVEL1_DCACHE_SIZE)) in *.
    set (ss := wrap64 (2 ^ a * _)) in *.
    assert (Rsz : 0 <= sz < 2 ^ 64) by apply wrap64_range.
    destruct (Z.eqb_spec ss 0) as [|_]; [contradiction|]. cbn [obind].
    rewrite dlog2_pow2 by lia. cbn [obind].
    rewrite (Z.div_small sz ss) by lia.
    change (dlog2 0) with (Some (2 ^ 32 - 1)). cbn [obind].
    rewrite (to_int_small a) by lia. rewrite (wrap32_small a) by lia.
    assert (Hts : to_int (wrap32 (2 ^ 32 - 1 + a)) = a - 1).
    { unfold to_int, wrap32, INT_MAX.
      replace (2 ^ 32 - 1 + a) with (a - 1 + 1 * 2 ^ 32) by lia.
      rewrite Z.mod_add by lia. rewrite Z.mod_mod by lia.
      rewrite Z.mod_small by lia.
      destruct (Z.leb_spec (a - 1) (2 ^ 31 - 1)); lia. }
    rewrite Hts. rewrite !shl64_defined by lia. cbn [obind].
    eexists. split; [reflexivity|]. repeat split. }
  destruct Hgeo as (c0 & Hgeo & Hn0 & Hi0 & Ht0).
  destruct (cache_init_defined w s c0 Hgeo) as (r & c & s' & Hrun).
  destruct (cache_init_inv w s r c s' Hrun) as (Hgeo' & _).
  rewrite Hgeo in Hgeo'. injection Hgeo' as ->.
  fields Hn0; fields Hi0; fields Ht0.
  exists r, c, s'. split; [exact Hrun|]. split; [exact Hn0|].
  split; [exact Hi0|]. split; [exact Ht0|].
  intros setno s0 Hset.
  unfold cache_fill_set, cache_flush_set, cache_count_hits.
  rewrite Hn0. destruct (Z.geb_spec setno 0); [|lia]. repeat split.
Qed.

Lemma cache_init_no_sets_witness :
  exists r c s',
    cache_init tiny boot = Some (r, c, s') /\
    nsets c = 0 /\ index_shift c = 6 /\ tag_shift c = 6 - 1 /\
    forall setno s0, 0 <= setno ->
      cache_fill_set c setno s0 = Some (-1, s0) /\
      cache_flush_set c setno s0 = Some (-1, s0) /\
      cache_count_hits tiny c setno s0 = Some (-1, s0).
Proof.
  apply (cache_init_no_sets tiny boot 6).
  - lia.
  - reflexivity.
  - vm_compute. discriminate.
  - vm_compute. reflexivity.
Defined.

(** ** Addresses under the masks *)

Lemma testbit_high x i : 0 <= x < 2 ^ 64 -> 64 <= i -> Z.testbit x i = false.
Proof.
  intros Hx Hi. rewrite <- (Z.mod_small x (2 ^ 64)) by exact Hx.
  apply Z.mod_pow2_bits_high. lia.
Qed.

(** X5: with the line size and the number of sets powers of two, the masks
    and shifts of [cache_init] split every 64-bit address into offset, index
    and tag, and the three fields put the address together again. *)
Theorem address_decomposition w s r c s' x :
  cache_init w s = Some (r, c, s') ->
  is_pow2 (nsets c) -> is_pow2 (line_size c) ->
  0 <= x < 2 ^ 64 ->
  Z.land x (offset_mask c) = x mod line_size c /\
  Z.shiftr (Z.land x (index_mask c)) (index_shift c)
  = (x / line_size c) mod nsets c /\
  Z.shiftr (Z.land x (tag_mask c)) (tag_shift c)
  = x / (line_size c * nsets c) /\
  Z.land x (offset_mask c) + Z.land x (index_mask c) + Z.land x (tag_mask c)
  = x.
Proof.
  intros Hrun Hsets Hline Hx.
  destruct (cache_init_inv w s r c s' Hrun) as (Hgeo & _ & _).
  destruct (pow2_geometry w (geometry_of c) Hgeo Hline Hsets)
    as (a & b & Ha & Hb & Hab & Hl & Hn & Hish & Htsh & Hom & Him & Htm & _).
  fields Hl; fields Hn; fields Hish; fields Htsh; fields Hom; fields Him;
    fields Htm.
  rewrite Hl, Hn, Hish, Htsh, Hom, Him, Htm.
  split; [apply Z.land_ones; exact Ha|]. split; [|split].
  - rewrite Z.shiftr_land, Z.shiftr_shiftl_l, Z.sub_diag, Z.shiftl_0_r by lia.
    rewrite Z.land_ones, Z.shiftr_div_pow2 by lia. reflexivity.
  - rewrite <- Z.pow_add_r, <- Z.shiftr_div_pow2 by lia.
    apply Z.bits_inj'. intros i Hi.
    destruct (mask_bits a b (i + (a + b)) Ha Hb Hab ltac:(lia))
      as (_ & _ & B3).
    rewrite !Z.shiftr_spec, Z.land_spec, B3 by lia.
    destruct (Z.leb_spec (a + b) (i + (a + b))); [|lia].
    destruct (Z.ltb_spec (i + (a + b)) 64); cbn [andb].
    + apply andb_true_r.
    + rewrite andb_false_r. symmetry. apply testbit_high; [exact Hx|lia].
  - set (A := Z.land x (Z.ones a)).
    set (B := Z.land x (Z.shiftl (Z.ones b) a)).
    set (C := Z.land x (wrap64 (Z.shiftl (Z.ones 64) (a + b)))).
    assert (HAB : Z.land A B = 0).
    { apply Z.bits_inj'. intros i Hi.
      destruct (mask_bits a b i Ha Hb Hab Hi) as (B1 & B2 & _).
      unfold A, B. rewrite !Z.land_spec, B1, B2, Z.bits_0.
      destruct (Z.ltb_spec i a), (Z.leb_spec a i); cbn [andb];
        rewrite ?andb_false_r; try reflexivity; lia. }
    assert (HABC : Z.land (Z.lor A B) C = 0).
    { apply Z.bits_inj'. intros i Hi.
      destruct (mask_bits a b i Ha Hb Hab Hi) as (B1 & B2 & B3).
      unfold A, B, C.
      rewrite !Z.land_spec, Z.lor_spec, !Z.land_spec, B1, B2, B3, Z.bits_0.
      destruct (Z.ltb_spec i a), (Z.leb_spec a i), (Z.ltb_spec i (a + b)),
        (Z.leb_spec (a + b) i); cbn [andb orb];
        rewrite ?andb_false_r; cbn [andb orb]; try reflexivity; lia. }
    pose proof (Z.add_lor_land A B) as E1.
    pose proof (Z.add_lor_land (Z.lor A B) C) as E2.
    rewrite HAB, Z.add_0_r in E1. rewrite HABC, Z.add_0_r in E2.
    rewrite <- E1, <- E2.
    apply Z.bits_inj'. intros i Hi.
    destruct (mask_bits a b i Ha Hb Hab Hi) as (B1 & B2 & B3).
    unfold A, B, C. rewrite !Z.lor_spec, !Z.land_spec, B1, B2, B3.
    destruct (Z.ltb_spec i 64).
    + destruct (Z.testbit x i); cbn [andb orb]; [|reflexivity].
      destruct (Z.ltb_spec i a), (Z.leb_spec a i), (Z.ltb_spec i (a + b)),
        (Z.leb_spec (a + b) i); cbn [andb orb]; try reflexivity; lia.
    + rewrite (testbit_high x i Hx) by lia. reflexivity.
Qed.

Lemma address_decomposition_witness :
  Z.land 1052869 (offset_mask i7_cache) = 1052869 mod line_size i7_cache /\
  Z.shiftr (Z.land 1052869 (index_mask i7_cache)) (index_shift i7_cache)
  = (1052869 / line_size i7_cache) mod nsets i7_cache /\
  Z.shiftr (Z.land 1052869 (tag_mask i7_cache)) (tag_shift i7_cache)
  = 1052869 / (line_size i7_cache * nsets i7_cache) /\
  Z.land 1052869 (offset_mask i7_cache)
  + Z.land 1052869 (index_mask i7_cache)
  + Z.land 1052869 (tag_mask i7_cache) = 1052869.
Proof.
  destruct i7_init as [s' E].
  apply (address_decomposition i7 boot 0 i7_cache s' 1052869 E
           pow2_64 pow2_64). lia.
Defined.

(** ** The ways in the buffer *)

(** The layout in terms of the fields of the descriptor. *)
Lemma way_addr_form w s c s' :
  cache_init w s = Some (0, c, s') ->
  is_pow2 (line_size c) -> is_pow2 (nsets c) ->
  buffer_size c = size c * assoc c ->
  placed c ->
  0 < line_size c /\ 0 < nsets c /\ 1 <= assoc c /\
  buffer c mod (nsets c * line_size c) = 0 /\
  assoc c * (nsets c * line_size c) <= size c /\
  size c <= buffer_size c /\
  0 < buffer c /\ buffer c + buffer_size c <= 2 ^ 64 /\
  forall setno k, 0 <= setno < nsets c -> 0 <= k < assoc c ->
    way_addr c setno k
    = buffer c + (setno + k * nsets c) * line_size c.
Proof.
  intros Hrun Hline Hsets Hbs Hplaced.
  destruct (buffer_layout w s c s' Hrun Hline Hsets Hbs Hplaced)
    as (a & b & Ha & Hb & Hl & Hn & Hish & Htsh & Hws & Hblock & Hsize
        & Hpos & Hend & Halign).
  pose proof (pow2_pos a Ha) as Pa. pose proof (pow2_pos b Hb) as Pb.
  rewrite Hl, Hn.
  repeat (split; [assumption|]).
  intros setno k Hset Hk.
  rewrite (way_addr_linear c a b) by (try assumption; lia). ring.
Qed.

(** X6: on a descriptor [cache_init] built with the line size and the number
    of sets powers of two, [buffer_size = size * assoc], and the buffer in
    the address space on a multiple of the stride [nsets * line_size], every
    way address is the first byte of a cache line, and no two (set, way)
    pairs share a line. *)
Theorem ways_have_own_lines w s c s' :
  cache_init w s = Some (0, c, s') ->
  is_pow2 (line_size c) -> is_pow2 (nsets c) ->
  buffer_size c = size c * assoc c ->
  placed c ->
  forall set1 k1 set2 k2,
    0 <= set1 < nsets c -> 0 <= k1 < assoc c ->
    0 <= set2 < nsets c -> 0 <= k2 < assoc c ->
    way_addr c set1 k1 mod line_size c = 0 /\
    (way_addr c set1 k1 / line_size c = way_addr c set2 k2 / line_size c ->
     set1 = set2 /\ k1 = k2).
Proof.
  intros Hrun Hline Hsets Hbs Hplaced set1 k1 set2 k2 Hs1 Hk1 Hs2 Hk2.
  destruct (way_addr_form w s c s' Hrun Hline Hsets Hbs Hplaced)
    as (HL & HN & _ & Halign & _ & _ & _ & _ & Hform).
  rewrite (Hform set1 k1 Hs1 Hk1), (Hform set2 k2 Hs2 Hk2).
  apply Z.mod_divide in Halign; [|lia]. destruct Halign as [m Hm].
  rewrite Hm.
  replace (m * (nsets c * line_size c) + (set1 + k1 * nsets c) * line_size c)
    with ((m * nsets c + set1 + k1 * nsets c) * line_size c) by ring.
  replace (m * (nsets c * line_size c) + (set2 + k2 * nsets c) * line_size c)
    with ((m * nsets c + set2 + k2 * nsets c) * line_size c) by ring.
  rewrite Z.mod_mul, !Z.div_mul by lia.
  split; [reflexivity|]. intros E.
  assert (Eset : set1 + (k1 - k2) * nsets c = set2) by lia.
  assert (k1 = k2) by nia.
  subst k2. split; [lia|reflexivity].
Qed.

Lemma ways_have_own_lines_witness :
  way_addr i7_cache 5 3 mod line_size i7_cache = 0 /\
  (way_addr i7_cache 5 3 / line_size i7_cache
   = way_addr i7_cache 5 3 / line_size i7_cache -> 5 = 5 /\ 3 = 3).
Proof.
  destruct i7_init as [s' E].
  apply (ways_have_own_lines i7 boot i7_cache s'
           E pow2_64 pow2_64 eq_refl i7_placed);
    unfold i7_cache; simpl; lia.
Defined.

(** X7: on such a descriptor (same hypotheses) the set operations of
    different sets touch disjoint addresses. *)
Theorem sets_are_disjoint w s c s' :
  cache_init w s = Some (0, c, s') ->
  is_pow2 (line_size c) -> is_pow2 (nsets c) ->
  buffer_size c = size c * assoc c ->
  placed c ->
  forall set1 set2 p,
    0 <= set1 < nsets c -> 0 <= set2 < nsets c -> set1 <> set2 ->
    In p (ways c set1) -> ~ In p (ways c set2).
Proof.
  intros Hrun Hline Hsets Hbs Hplaced set1 set2 p Hs1 Hs2 Hne Hin1 Hin2.
  apply ways_spec in Hin1. destruct Hin1 as (k1 & Hk1 & E1).
  apply ways_spec in Hin2. destruct Hin2 as (k2 & Hk2 & E2).
  destruct (way_addr_form w s c s' Hrun Hline Hsets Hbs Hplaced)
    as (HL & HN & _ & _ & _ & _ & _ & _ & Hform).
  rewrite (Hform set1 k1 Hs1 Hk1) in E1.
  rewrite (Hform set2 k2 Hs2 Hk2) in E2.
  assert (Eset : set1 + (k1 - k2) * nsets c = set2) by nia.
  assert (k1 = k2) by nia.
  subst k2. lia.
Qed.

Lemma sets_are_disjoint_witness :
  In (way_addr i7_cache 5 0) (ways i7_cache 5) /\
  ~ In (way_addr i7_cache 5 0) (ways i7_cache 6).
Proof.
  destruct i7_init as [s' E].
  assert (Hin : In (way_addr i7_cache 5 0) (ways i7_cache 5)).
  { apply ways_spec. exists 0. split; [unfold i7_cache; simpl; lia|].
    reflexivity. }
  split; [exact Hin|].
  apply (sets_are_disjoint i7 boot i7_cache s'
           E pow2_64 pow2_64 eq_refl i7_placed
           5 6); [unfold i7_cache; simpl; lia|unfold i7_cache; simpl; lia
                 |lia|exact Hin].
Defined.

(** X8: on such a descriptor (same hypotheses) every byte of every line the
    set operations touch lies in the first [size] bytes of the buffer, the
    part [cache_init] cleared: it reads 0 when [cache_init] returns. *)
Theorem way_lines_are_cleared w s c s' :
  cache_init w s = Some (0, c, s') ->
  is_pow2 (line_size c) -> is_pow2 (nsets c) ->
  buffer_size c = size c * assoc c ->
  placed c ->
  forall setno k j,
    0 <= setno < nsets c -> 0 <= k < assoc c -> 0 <= j < line_size c ->
    buffer c <= way_addr c setno k + j < buffer c + size c /\
    st_mem s' (way_addr c setno k + j) = 0.
Proof.
  intros Hrun Hline Hsets Hbs Hplaced setno k j Hset Hk Hj.
  destruct (way_addr_form w s c s' Hrun Hline Hsets Hbs Hplaced)
    as (HL & HN & _ & _ & Hblock & _ & _ & _ & Hform).
  rewrite (Hform setno k Hset Hk).
  assert (Hin : buffer c
                <= buffer c + (setno + k * nsets c) * line_size c + j
                < buffer c + size c).
  { assert ((k + 1) * (nsets c * line_size c)
            <= assoc c * (nsets c * line_size c))
      by (apply Z.mul_le_mono_nonneg_r; nia).
    nia. }
  split; [exact Hin|].
  rewrite (cache_init_memory w s c s' Hrun). unfold zeroed.
  destruct (Z.leb_spec (buffer c)
              (buffer c + (setno + k * nsets c) * line_size c + j)); [|lia].
  destruct (Z.ltb_spec (buffer c + (setno + k * nsets c) * line_size c + j)
              (buffer c + size c)); [reflexivity|lia].
Qed.

Lemma way_lines_are_cleared_witness :
  exists s',
    cache_init i7 boot = Some (0, i7_cache, s') /\
    buffer i7_cache <= way_addr i7_cache 63 7 + 63
    < buffer i7_cache + size i7_cache /\
    st_mem s' (way_addr i7_cache 63 7 + 63) = 0.
Proof.
  destruct i7_init as [s' E]. exists s'. split; [exact E|].
  apply (way_lines_are_cleared i7 boot i7_cache s'
           E pow2_64 pow2_64 eq_refl i7_placed);
    unfold i7_cache; simpl; lia.
Defined.

(** ** When the diagnostic of [cache_count_hits] fires *)

Lemma way_ptr_with_assoc c n setno k :
  way_ptr (with_assoc c n) setno k = way_ptr c setno k.
Proof.
  induction k as [|k IH]; [reflexivity|].
  cbn [way_ptr]. rewrite IH. reflexivity.
Qed.

Lemma escapes_none c setno ks :
  (forall k, In k ks ->
     way_ptr c setno (S k) < wrap64 (buffer c + buffer_size c)) ->
  escapes c setno ks = 0.
Proof.
  induction ks as [|k ks IH]; intros Hall; [reflexivity|].
  rewrite escapes_cons, IH by (intros k' Hk'; apply Hall; now right).
  destruct (Z.ltb_spec (way_ptr c setno (S k))
              (wrap64 (buffer c + buffer_size c))) as [_|Hge];
    [reflexivity|].
  specialize (Hall k (or_introl eq_refl)). lia.
Qed.

(** X9: on a descriptor [cache_init] built with the line size and the number
    of sets powers of two, [buffer_size = size * assoc], the buffer placed
    on a multiple of the stride and not in the last [buffer_size] bytes of
    the address space, and [assoc <= INT_MAX]: a call of [cache_count_hits]
    prints its diagnostic line once when the cache has one way and the
    pointer past that way, [(setno + nsets) * line_size] bytes into the
    buffer, reaches [size]; it prints nothing otherwise.  When the cache
    size is exactly [nsets * line_size * assoc], that is once per call for a
    direct-mapped cache and never for [assoc >= 2]. *)
Theorem diagnostic_iff_direct_mapped w s c s' :
  cache_init w s = Some (0, c, s') ->
  is_pow2 (line_size c) -> is_pow2 (nsets c) ->
  buffer_size c = size c * assoc c ->
  placed c ->
  buffer c + 2 * buffer_size c <= 2 ^ 64 ->
  assoc c <= INT_MAX ->
  forall setno s0, 0 <= setno < nsets c ->
    exists evs,
      cache_count_hits w c setno s0 = Some (hits_in c evs, extend s0 evs) /\
      prints_in evs
      = (if (assoc c =? 1) && (size c <=? (setno + nsets c) * line_size c)
         then 1 else 0) /\
      (size c = nsets c * line_size c * assoc c ->
       prints_in evs = (if assoc c =? 1 then 1 else 0)).
Proof.
  intros Hrun Hline Hsets Hbs Hplaced Hroom Hmax setno s0 Hset.
  destruct (buffer_layout w s c s' Hrun Hline Hsets Hbs Hplaced)
    as (a & b & Ha & Hb & Hl & Hn & Hish & Htsh & Hws & Hblock & Hsize
        & Hpos & Hend & Halign).
  pose proof (pow2_pos a Ha) as Pa. pose proof (pow2_pos b Hb) as Pb.
  destruct (cache_count_hits_run w c setno s0 Hset
              (cache_init_shift w s 0 c s' Hrun) Hmax)
    as (evs & Hcount & _ & Hprints & _).
  exists evs. split; [exact Hcount|]. rewrite Hprints. clear Hcount Hprints.
  assert (Hstride : 0 < 2 ^ b * 2 ^ a) by nia.
  assert (Hoff : 0 <= setno * 2 ^ a) by nia.
  assert (Hbound : wrap64 (buffer c + buffer_size c)
                   = buffer c + buffer_size c)
    by (apply wrap64_small; nia).
  (* the pointer after way [k], for every way of the set *)
  assert (Hptr : forall k, (k < Z.to_nat (assoc c))%nat ->
            way_ptr c setno (S k)
            = buffer c + setno * 2 ^ a + (Z.of_nat k + 1) * (2 ^ b * 2 ^ a)).
  { intros k Hk.
    rewrite <- (way_ptr_with_assoc c (assoc c + 1)).
    rewrite (way_ptr_linear (with_assoc c (assoc c + 1)) a b);
      cbn [with_assoc index_shift nsets buffer assoc]; try assumption;
      try lia.
    assert ((assoc c + 1) * (2 ^ b * 2 ^ a)
            <= (2 * assoc c) * (2 ^ b * 2 ^ a))
      by (apply Z.mul_le_mono_nonneg_r; lia).
    lia. }
  assert (Hmain : escapes c setno (seq 0 (Z.to_nat (assoc c)))
                  = (if (assoc c =? 1)
                        && (size c <=? (setno + nsets c) * line_size c)
                     then 1 else 0)).
  { destruct (Z.eqb_spec (assoc c) 1) as [Hone|Hmany]; cbn [andb].
    - rewrite Hone. change (seq 0 (Z.to_nat 1)) with [0%nat].
      rewrite escapes_cons, Hbound, Hptr by (rewrite Hone; simpl; lia).
      rewrite Hbs, Hone, Hn, Hl. change (Z.of_nat 0) with 0.
      change (escapes c setno []) with 0.
      destruct (Z.ltb_spec (buffer c + setno * 2 ^ a
                            + (0 + 1) * (2 ^ b * 2 ^ a))
                  (buffer c + size c * 1)),
               (Z.leb_spec (size c) ((setno + 2 ^ b) * 2 ^ a));
        cbn [negb]; try reflexivity; lia.
    - apply escapes_none. intros k Hk. apply in_seq in Hk.
      rewrite Hbound, Hptr by lia.
      assert (Hk' : Z.of_nat k + 1 <= assoc c) by lia.
      assert ((Z.of_nat k + 1) * (2 ^ b * 2 ^ a)
              <= assoc c * (2 ^ b * 2 ^ a))
        by (apply Z.mul_le_mono_nonneg_r; lia).
      assert (2 * size c <= buffer_size c) by (rewrite Hbs; nia).
      nia. }
  split; [exact Hmain|].
  intros Hexact. rewrite Hmain.
  destruct (Z.eqb_spec (assoc c) 1) as [Hone|_]; cbn [andb]; [|reflexivity].
  rewrite Hexact, Hone, Hn, Hl.
  destruct (Z.leb_spec (2 ^ b * 2 ^ a * 1) ((setno + 2 ^ b) * 2 ^ a));
    [reflexivity|lia].
Qed.

Lemma diagnostic_iff_direct_mapped_witness :
  (exists evs,
     cache_count_hits i7 i7_cache 3 boot
     = Some (hits_in i7_cache evs, extend boot evs) /\
     prints_in evs = 0) /\
  (exists evs,
     cache_count_hits direct direct_cache 3 boot
     = Some (hits_in direct_cache evs, extend boot evs) /\
     prints_in evs = 1).
Proof.
  split.
  - destruct i7_init as [s' E].
    destruct (diagnostic_iff_direct_mapped i7 boot i7_cache s' E
                pow2_64 pow2_64 eq_refl i7_placed) with (setno := 3)
                                                         (s0 := boot)
      as (evs & Hrun & Hprints & _);
      [unfold i7_cache; simpl; lia|unfold i7_cache, INT_MAX; simpl; lia
      |unfold i7_cache; simpl; lia|].
    exists evs. split; [exact Hrun|exact Hprints].
  - destruct direct_init as [s' E].
    destruct (diagnostic_iff_direct_mapped direct boot direct_cache s' E
                pow2_64 pow2_64 eq_refl direct_placed) with (setno := 3)
                                                             (s0 := boot)
      as (evs & Hrun & Hprints & _);
      [unfold direct_cache; simpl; lia
      |unfold direct_cache, INT_MAX; simpl; lia
      |unfold direct_cache; simpl; lia|].
    exists evs. split; [exact Hrun|exact Hprints].
Defined.

(** ** What calibration touches and measures *)

Lemma durations_app t1 t2 : durations (t1 ++ t2) = durations t1 + durations t2.
Proof.
  induction t1 as [|[p|p|p d|x] t1 IH]; cbn [durations app];
    rewrite ?IH; lia.
Qed.

Lemma wrap64_add_l x y : wrap64 (wrap64 x + y) = wrap64 (x + y).
Proof. unfold wrap64. apply Z.add_mod_idemp_l. lia. Qed.

Lemma calibrate_hits_trace w ptr n : forall mean s,
  0 <= mean < 2 ^ 64 ->
  exists evs,
    calibrate_hits w n ptr mean s
    = Some (wrap64 (mean + durations evs), extend s evs) /\
    touched evs = repeat ptr (2 * n) /\ prints_in evs = 0.
Proof.
  induction n as [|n IH]; intros mean s Hmean.
  - exists []. cbn [calibrate_hits durations]. unfold mret.
    rewrite extend_nil, Z.add_0_r, wrap64_small by exact Hmean.
    repeat split.
  - replace (2 * S n)%nat with (S (S (2 * n))) by lia.
    cbn [calibrate_hits]. mstep.
    set (d := wrap64 (w_cycles w (EvFill ptr :: st_trace s) ptr)).
    destruct (IH (wrap64 (mean + d))
                (extend s [EvTimed ptr d; EvFill ptr])
                (wrap64_range _)) as (evs & Hrun & Ht & Hp).
    exists (evs ++ [EvTimed ptr d; EvFill ptr]).
    unfold extend in Hrun at 1. simpl in Hrun. rewrite Hrun.
    rewrite extend_extend, durations_app, touched_app, prints_in_app, Ht, Hp.
    cbn [durations touched touched_rev rev app prints_in].
    rewrite wrap64_add_l.
    split; [f_equal; f_equal; f_equal; lia|].
    split; reflexivity.
Qed.

Lemma calibrate_misses_trace w ptr n : forall mean s,
  0 <= mean < 2 ^ 64 ->
  exists evs,
    calibrate_misses w n ptr mean s
    = Some (wrap64 (mean + durations evs), extend s evs) /\
    touched evs = repeat ptr (2 * n) /\ prints_in evs = 0.
Proof.
  induction n as [|n IH]; intros mean s Hmean.
  - exists []. cbn [calibrate_misses durations]. unfold mret.
    rewrite extend_nil, Z.add_0_r, wrap64_small by exact Hmean.
    repeat split.
  - replace (2 * S n)%nat with (S (S (2 * n))) by lia.
    cbn [calibrate_misses]. mstep.
    set (d := wrap64 (w_cycles w (EvFlush ptr :: st_trace s) ptr)).
    destruct (IH (wrap64 (mean + d))
                (extend s [EvTimed ptr d; EvFlush ptr])
                (wrap64_range _)) as (evs & Hrun & Ht & Hp).
    exists (evs ++ [EvTimed ptr d; EvFlush ptr]).
    unfold extend in Hrun at 1. simpl in Hrun. rewrite Hrun.
    rewrite extend_extend, durations_app, touched_app, prints_in_app, Ht, Hp.
    cbn [durations touched touched_rev rev app prints_in].
    rewrite wrap64_add_l.
    split; [f_equal; f_equal; f_equal; lia|].
    split; reflexivity.
Qed.

(** A successful run of [cache_init], event by event: the hit loop, then the
    miss loop, then the [memset]. *)
Lemma cache_init_success_trace w s c s' :
  cache_init w s = Some (0, c, s') ->
  exists e1 e2,
    s' = mkState (zeroed (st_mem s) (buffer c) (size c))
                 (e2 ++ e1 ++ st_trace s) (st_affinity s) /\
    touched e1 = repeat (buffer c) (2 * Z.to_nat NTRIALS) /\
    touched e2 = repeat (buffer c) (2 * Z.to_nat NTRIALS) /\
    prints_in e1 = 0 /\ prints_in e2 = 0 /\
    hit_latency c = wrap64 (durations e1) / NTRIALS /\
    miss_latency c = wrap64 (durations e2) / NTRIALS /\
    calibrate_hits w (Z.to_nat NTRIALS) (buffer c) 0 s
    = Some (wrap64 (durations e1), extend s e1) /\
    calibrate_misses w (Z.to_nat NTRIALS) (buffer c) 0 (extend s e1)
    = Some (wrap64 (durations e2), extend (extend s e1) e2).
Proof.
  intros Hrun.
  destruct (cache_init_inv w s 0 c s' Hrun) as (Hgeo & Hbuf & Hcase).
  destruct Hcase as [(Hr & _)|(_ & Hnz & _)]; [discriminate|].
  revert Hrun. unfold cache_init. unfold mbind at 1, lift. rewrite Hgeo.
  cbn [geometry_of with_calibration with_buffer size line_size set_size assoc
       nsets offset_mask index_mask tag_mask index_shift tag_shift
       hit_latency miss_latency hit_threshold buffer_size buffer].
  rewrite <- Hbuf.
  destruct (Z.eqb_spec (buffer c) 0) as [|_]; [contradiction|].
  unfold mbind at 1.
  destruct (calibrate_hits_trace w (buffer c) (Z.to_nat NTRIALS) 0 s
              ltac:(lia)) as (e1 & Hrun1 & T1 & P1).
  rewrite Hrun1. unfold mbind at 1.
  destruct (calibrate_misses_trace w (buffer c) (Z.to_nat NTRIALS) 0
              (extend s e1) ltac:(lia)) as (e2 & Hrun2 & T2 & P2).
  rewrite Hrun2. unfold mbind, memset, mret.
  intros [= Hc Hs]. exists e1, e2.
  split.
  { rewrite <- Hs. unfold zeroed, extend. cbn [st_mem st_trace st_affinity].
    reflexivity. }
  split; [exact T1|]. split; [exact T2|]. split; [exact P1|].
  split; [exact P2|].
  split; [rewrite <- Hc; reflexivity|].
  split; [rewrite <- Hc; reflexivity|].
  split; [reflexivity|exact Hrun2].
Qed.

(** The hit loop, trial by trial. *)
Lemma calibrate_hits_events w ptr n : forall mean s,
  0 <= mean < 2 ^ 64 ->
  exists durs,
    List.length durs = n /\
    Forall (fun dur => 0 <= dur < 2 ^ 64) durs /\
    calibrate_hits w n ptr mean s
    = Some (wrap64 (mean + total durs), extend s (rev (hit_trials ptr durs))).
Proof.
  induction n as [|n IH]; intros mean s Hmean.
  - exists []. cbn [calibrate_hits total hit_trials flat_map rev fold_right].
    unfold mret. rewrite extend_nil, Z.add_0_r, wrap64_small by exact Hmean.
    repeat split. constructor.
  - cbn [calibrate_hits]. mstep.
    set (d := wrap64 (w_cycles w (EvFill ptr :: st_trace s) ptr)).
    destruct (IH (wrap64 (mean + d))
                (extend s [EvTimed ptr d; EvFill ptr])
                (wrap64_range _)) as (durs & Hlen & Hall & Hrun).
    exists (d :: durs).
    split; [cbn [List.length]; now rewrite Hlen|].
    split; [constructor; [apply wrap64_range|exact Hall]|].
    unfold extend in Hrun at 1. simpl in Hrun. rewrite Hrun.
    rewrite extend_extend, wrap64_add_l.
    cbn [hit_trials flat_map total fold_right].
    change (flat_map (fun dur => [EvFill ptr; EvTimed ptr dur]) durs)
      with (hit_trials ptr durs).
    change (fold_right Z.add 0 durs) with (total durs).
    rewrite rev_app_distr. cbn [rev app].
    f_equal. f_equal. f_equal. lia.
Qed.

(** The miss loop, trial by trial. *)
Lemma calibrate_misses_events w ptr n : forall mean s,
  0 <= mean < 2 ^ 64 ->
  exists durs,
    List.length durs = n /\
    Forall (fun dur => 0 <= dur < 2 ^ 64) durs /\
    calibrate_misses w n ptr mean s
    = Some (wrap64 (mean + total durs),
            extend s (rev (miss_trials ptr durs))).
Proof.
  induction n as [|n IH]; intros mean s Hmean.
  - exists []. cbn [calibrate_misses total miss_trials flat_map rev fold_right].
    unfold mret. rewrite extend_nil, Z.add_0_r, wrap64_small by exact Hmean.
    repeat split. constructor.
  - cbn [calibrate_misses]. mstep.
    set (d := wrap64 (w_cycles w (EvFlush ptr :: st_trace s) ptr)).
    destruct (IH (wrap64 (mean + d))
                (extend s [EvTimed ptr d; EvFlush ptr])
                (wrap64_range _)) as (durs & Hlen & Hall & Hrun).
    exists (d :: durs).
    split; [cbn [List.length]; now rewrite Hlen|].
    split; [constructor; [apply wrap64_range|exact Hall]|].
    unfold extend in Hrun at 1. simpl in Hrun. rewrite Hrun.
    rewrite extend_extend, wrap64_add_l.
    cbn [miss_trials flat_map total fold_right].
    change (flat_map (fun dur => [EvFlush ptr; EvTimed ptr dur]) durs)
      with (miss_trials ptr durs).
    change (fold_right Z.add 0 durs) with (total durs).
    rewrite rev_app_distr. cbn [rev app].
    f_equal. f_equal. f_equal. lia.
Qed.

(** X10: what a successful [cache_init] logs, in order, is 1024 trials of a
    load of the first byte of the buffer followed by a timed read of it,
    then 1024 trials of a flush of that byte followed by a timed read of it,
    and nothing else.  [hit_latency] and [miss_latency] are the sums of the
    cycles of the timed reads of the first and of the second loop, wrapped
    to 64 bits and divided by 1024; the affinity of the thread is not
    changed. *)
Theorem calibration_accesses w s c s' :
  cache_init w s = Some (0, c, s') ->
  exists durs1 durs2,
    List.length durs1 = 1024%nat /\ List.length durs2 = 1024%nat /\
    Forall (fun dur => 0 <= dur < 2 ^ 64) (durs1 ++ durs2) /\
    st_trace s'
    = rev (hit_trials (buffer c) durs1 ++ miss_trials (buffer c) durs2)
      ++ st_trace s /\
    hit_latency c = wrap64 (total durs1) / 1024 /\
    miss_latency c = wrap64 (total durs2) / 1024 /\
    0 <= hit_latency c < 2 ^ 54 /\ 0 <= miss_latency c < 2 ^ 54 /\
    st_affinity s' = st_affinity s.
Proof.
  intros Hrun.
  destruct (cache_init_success_trace w s c s' Hrun)
    as (e1 & e2 & -> & _ & _ & _ & _ & Hh & Hm & Hrun1 & Hrun2).
  destruct (calibrate_hits_events w (buffer c) (Z.to_nat NTRIALS) 0 s
              ltac:(lia)) as (durs1 & Hlen1 & Hall1 & Hev1).
  destruct (calibrate_misses_events w (buffer c) (Z.to_nat NTRIALS) 0
              (extend s e1) ltac:(lia)) as (durs2 & Hlen2 & Hall2 & Hev2).
  assert (E1 : wrap64 (durations e1) = wrap64 (total durs1)
               /\ e1 = rev (hit_trials (buffer c) durs1)).
  { rewrite Hrun1 in Hev1. injection Hev1 as A B.
    split; [exact A|now apply app_inv_tail in B]. }
  assert (E2 : wrap64 (durations e2) = wrap64 (total durs2)
               /\ e2 = rev (miss_trials (buffer c) durs2)).
  { rewrite Hrun2 in Hev2. injection Hev2 as A B.
    split; [exact A|now apply app_inv_tail in B]. }
  destruct E1 as [Ed1 Ee1]. destruct E2 as [Ed2 Ee2]. subst e1 e2.
  rewrite Ed1 in Hh. rewrite Ed2 in Hm.
  exists durs1, durs2. unfold NTRIALS in *.
  pose proof (wrap64_range (total durs1)).
  pose proof (wrap64_range (total durs2)).
  split; [exact Hlen1|]. split; [exact Hlen2|].
  split; [apply Forall_app; split; assumption|].
  split; [cbn [st_trace]; now rewrite rev_app_distr, <- app_assoc|].
  split; [exact Hh|]. split; [exact Hm|].
  split.
  { rewrite Hh. split; [apply Z.div_pos; lia|apply Z.div_lt_upper_bound; lia]. }
  split.
  { rewrite Hm. split; [apply Z.div_pos; lia|apply Z.div_lt_upper_bound; lia]. }
  reflexivity.
Qed.

Lemma calibration_accesses_witness :
  exists s' durs1 durs2,
    cache_init i7 boot = Some (0, i7_cache, s') /\
    List.length durs1 = 1024%nat /\ List.length durs2 = 1024%nat /\
    st_trace s'
    = rev (hit_trials (buffer i7_cache) durs1
           ++ miss_trials (buffer i7_cache) durs2) ++ st_trace boot.
Proof.
  destruct i7_init as [s' E].
  destruct (calibration_accesses i7 boot i7_cache s' E)
    as (durs1 & durs2 & Hlen1 & Hlen2 & _ & Htrace & _).
  exists s', durs1, durs2. split; [exact E|]. repeat split; assumption.
Defined.

(** ** Calibration and the set operations on a host without noise *)

Lemma resident_same line hist ptr :
  resident line (EvFill ptr :: hist) ptr = true /\
  resident line (EvFlush ptr :: hist) ptr = false.
Proof. cbn [resident]. now rewrite Z.eqb_refl. Qed.

Lemma calibrate_hits_ideal w line hit miss ptr n :
  ideal w line hit miss ->
  forall mean s, 0 <= mean < 2 ^ 64 ->
  exists evs,
    calibrate_hits w n ptr mean s
    = Some (wrap64 (mean + Z.of_nat n * wrap64 hit), extend s evs).
Proof.
  intros Hideal. induction n as [|n IH]; intros mean s Hmean.
  - exists []. cbn [calibrate_hits]. unfold mret.
    rewrite extend_nil, Z.mul_0_l, Z.add_0_r, wrap64_small by exact Hmean.
    reflexivity.
  - rewrite Nat2Z.inj_succ. cbn [calibrate_hits]. mstep.
    rewrite Hideal, (proj1 (resident_same line (st_trace s) ptr)).
    destruct (IH (wrap64 (mean + wrap64 hit))
                (extend s [EvTimed ptr (wrap64 hit); EvFill ptr])
                (wrap64_range _)) as (evs & Hrun).
    exists (evs ++ [EvTimed ptr (wrap64 hit); EvFill ptr]).
    unfold extend in Hrun at 1. simpl in Hrun. rewrite Hrun.
    rewrite extend_extend, wrap64_add_l. f_equal. f_equal. f_equal. lia.
Qed.

Lemma calibrate_misses_ideal w line hit miss ptr n :
  ideal w line hit miss ->
  forall mean s, 0 <= mean < 2 ^ 64 ->
  exists evs,
    calibrate_misses w n ptr mean s
    = Some (wrap64 (mean + Z.of_nat n * wrap64 miss), extend s evs).
Proof.
  intros Hideal. induction n as [|n IH]; intros mean s Hmean.
  - exists []. cbn [calibrate_misses]. unfold mret.
    rewrite extend_nil, Z.mul_0_l, Z.add_0_r, wrap64_small by exact Hmean.
    reflexivity.
  - rewrite Nat2Z.inj_succ. cbn [calibrate_misses]. mstep.
    rewrite Hideal, (proj2 (resident_same line (st_trace s) ptr)).
    destruct (IH (wrap64 (mean + wrap64 miss))
                (extend s [EvTimed ptr (wrap64 miss); EvFlush ptr])
                (wrap64_range _)) as (evs & Hrun).
    exists (evs ++ [EvTimed ptr (wrap64 miss); EvFlush ptr]).
    unfold extend in Hrun at 1. simpl in Hrun. rewrite Hrun.
    rewrite extend_extend, wrap64_add_l. f_equal. f_equal. f_equal. lia.
Qed.

Lemma ideal_calibration w line hit miss s c s' :
  ideal w line hit miss ->
  0 <= hit < 2 ^ 54 -> 0 <= miss < 2 ^ 54 ->
  cache_init w s = Some (0, c, s') ->
  hit_latency c = hit /\ miss_latency c = miss /\
  hit_threshold c = (hit + miss) / 2.
Proof.
  intros Hideal Hhit Hmiss Hrun.
  destruct (cache_init_success_trace w s c s' Hrun)
    as (e1 & e2 & _ & _ & _ & _ & _ & Hh & Hm & Hrun1 & Hrun2).
  destruct (calibrate_hits_ideal w line hit miss (buffer c)
              (Z.to_nat NTRIALS) Hideal 0 s ltac:(lia)) as (e1' & Hrun1').
  destruct (calibrate_misses_ideal w line hit miss (buffer c)
              (Z.to_nat NTRIALS) Hideal 0 (extend s e1) ltac:(lia))
    as (e2' & Hrun2').
  assert (E1 : wrap64 (durations e1)
               = wrap64 (0 + Z.of_nat (Z.to_nat NTRIALS) * wrap64 hit))
    by congruence.
  assert (E2 : wrap64 (durations e2)
               = wrap64 (0 + Z.of_nat (Z.to_nat NTRIALS) * wrap64 miss))
    by congruence.
  clear Hrun1 Hrun2 Hrun1' Hrun2'.
  unfold NTRIALS in *. change (Z.of_nat (Z.to_nat 1024)) with 1024 in *.
  rewrite (wrap64_small hit) in E1 by lia.
  rewrite (wrap64_small miss) in E2 by lia.
  rewrite (wrap64_small (0 + 1024 * hit)) in E1 by lia.
  rewrite (wrap64_small (0 + 1024 * miss)) in E2 by lia.
  assert (Hh' : hit_latency c = hit).
  { rewrite Hh, E1. replace (0 + 1024 * hit) with (hit * 1024) by lia.
    apply Z.div_mul. lia. }
  assert (Hm' : miss_latency c = miss).
  { rewrite Hm, E2. replace (0 + 1024 * miss) with (miss * 1024) by lia.
    apply Z.div_mul. lia. }
  split; [exact Hh'|]. split; [exact Hm'|].
  rewrite <- Hh', <- Hm'.
  exact (proj2 (proj2 (cache_init_threshold w s c s' Hrun))).
Qed.

(** X11: on a host without noise, where a resident line is read in [hit]
    cycles and any other in [miss] (both below 2^54), calibration measures
    exactly these two values and installs their integer mean; when [hit] is
    below [miss] the threshold separates the two: a hit is at or below it, a
    miss above it. *)
Theorem calibration_is_exact w line hit miss s c s' :
  ideal w line hit miss ->
  0 <= hit < 2 ^ 54 -> 0 <= miss < 2 ^ 54 ->
  cache_init w s = Some (0, c, s') ->
  hit_latency c = hit /\ miss_latency c = miss /\
  hit_threshold c = (hit + miss) / 2 /\
  (hit < miss -> hit <= hit_threshold c < miss).
Proof.
  intros Hideal Hhit Hmiss Hrun.
  destruct (ideal_calibration w line hit miss s c s' Hideal Hhit Hmiss Hrun)
    as (Hh & Hm & Ht).
  split; [exact Hh|]. split; [exact Hm|]. split; [exact Ht|].
  intros Hlt. rewrite Ht. split.
  - apply Z.div_le_lower_bound; lia.
  - apply Z.div_lt_upper_bound; lia.
Qed.

Lemma host_ideal sz line nways base hit miss ncpus :
  ideal (host sz line nways base hit miss ncpus) line hit miss.
Proof. intros hist ptr. reflexivity. Qed.

Lemma calibration_is_exact_witness :
  exists s',
    cache_init i7 boot = Some (0, i7_cache, s') /\
    hit_latency i7_cache = 40 /\ miss_latency i7_cache = 200 /\
    hit_threshold i7_cache = (40 + 200) / 2 /\
    (40 < 200 -> 40 <= hit_threshold i7_cache < 200).
Proof.
  destruct i7_init as [s' E]. exists s'. split; [exact E|].
  apply (calibration_is_exact i7 64 40 200 boot i7_cache s'
           (host_ideal _ _ _ _ _ _ _)); [lia|lia|exact E].
Defined.






(** ** Thread affinity and the program entry *)

Lemma pin_current_thread_run w cpuno s :
  exists s1,
    pin_current_thread w cpuno s = Some (0, s1) /\
    st_mem s1 = st_mem s /\ st_trace s1 = st_trace s.
Proof.
  unfold pin_current_thread, mbind, mret, pthread_setaffinity_np, CPU_SET,
    CPU_ZERO.
  destruct ((0 <=? cpuno) && (cpuno <? CPU_SETSIZE)); cbn [filter].
  - destruct ((0 <=? cpuno) && (cpuno <? w_ncpus w));
      eexists; repeat split.
  - eexists; repeat split.
Qed.

(** The role branch of [main]: one [printf]; [transmit] and [receive] add
    nothing. *)
Lemma main_role_lines role c setno s :
  (if String.eqb role "transmit" then
     _ <~ printf ("Role:  TRANSMIT" ++ newline) ;;
     _ <~ transmit c setno "hello world!" ;;
     mret tt
   else if String.eqb role "receive" then
     _ <~ printf ("Role:  RECEIVE" ++ newline) ;;
     _ <~ receive c setno ;;
     mret tt
   else printf ("Invalid role: " ++ role ++ newline)) s
  = Some (tt, extend s [EvPrint (role_line role)]).
Proof.
  unfold role_line.
  destruct (String.eqb role "transmit"); [|destruct (String.eqb role "receive")];
    reflexivity.
Qed.

(** X15: whenever [main] returns.  Without exactly three arguments the exit
    status is 1 and nothing was done.  With three arguments the status is 0
    whatever the role, the CPU number and the result of [cache_init] were:
    the thread was pinned with the third argument, [cache_init] ran on the
    pinned machine (its result is dropped), and then [printf] was called
    three times, for the set, the CPU and the role.  When the allocation
    failed ([cache_init] returned -1 with a null buffer) nothing else was
    logged and nothing is released; when [cache_init] returned 0 the one
    block released is its buffer, and every cache access of the run went to
    the first byte of that buffer, so no set operation was run. *)
Theorem main_exit_status w argv s r released s' :
  main w argv s = Some ((r, released), s') ->
  (List.length argv <> 4%nat -> r = 1 /\ released = [] /\ s' = s) /\
  (List.length argv = 4%nat ->
     r = 0 /\
     exists setno cpuno s1 r0 c s2,
       atoi (nth 2 argv EmptyString) = Some setno /\
       atoi (nth 3 argv EmptyString) = Some cpuno /\
       pin_current_thread w cpuno s = Some (0, s1) /\
       st_trace s1 = st_trace s /\
       cache_init w s1 = Some (r0, c, s2) /\
       s' = extend s2
              [EvPrint (role_line (nth 1 argv EmptyString));
               EvPrint ("CPU:   " ++ show_int cpuno ++ newline);
               EvPrint ("Set:    " ++ show_int setno ++ newline)] /\
       ((r0 = -1 /\ buffer c = 0 /\ s2 = s1 /\ released = []) \/
        (r0 = 0 /\ buffer c <> 0 /\ released = [buffer c] /\
         exists evs,
           st_trace s2 = evs ++ st_trace s1 /\
           prints_in evs = 0 /\
           forall p, In p (touched evs) -> p = buffer c))).
Proof.
  unfold main. intros Hrun. split.
  - intros Hlen.
    destruct (Z.eqb_spec (Z.of_nat (List.length argv)) 4) as [E|_]; [lia|].
    cbn [negb] in Hrun. unfold mret in Hrun.
    injection Hrun as <- <- <-. repeat split.
  - intros Hlen. rewrite Hlen in Hrun.
    change (negb (Z.of_nat 4 =? 4)) with false in Hrun. cbv iota in Hrun.
    revert Hrun. unfold mbind at 1, lift.
    destruct (atoi (nth 2 argv EmptyString)) as [setno|]; [|discriminate].
    unfold mbind at 1.
    destruct (atoi (nth 3 argv EmptyString)) as [cpuno|]; [|discriminate].
    unfold mbind at 1.
    destruct (pin_current_thread_run w cpuno s) as (s1 & Hpin & _ & Htr1).
    rewrite Hpin. unfold mbind at 1.
    destruct (cache_init w s1) as [[[r0 c] s2]|] eqn:Hinit; [|discriminate].
    cbn [snd]. unfold mbind at 1, printf, log. unfold mbind at 1.
    unfold mbind at 1.
    set (s3 := mkState _ _ _).
    pose proof (main_role_lines (nth 1 argv EmptyString) c setno s3) as Hrole.
    unfold printf, log in Hrole. rewrite Hrole. unfold mret.
    intros [= <- <- <-]. split; [reflexivity|].
    exists setno, cpuno, s1, r0, c, s2.
    split; [reflexivity|]. split; [reflexivity|]. split; [exact Hpin|].
    split; [exact Htr1|]. split; [exact Hinit|].
    split; [subst s3; reflexivity|].
    unfold cache_deinit, free. cbn [snd].
    destruct (cache_init_inv w s1 r0 c s2 Hinit) as (_ & _ & Hcase).
    destruct Hcase as [(-> & Hnull & ->)|(-> & Hnz & _)].
    + left. rewrite Hnull. repeat split; assumption.
    + right. destruct (Z.eqb_spec (buffer c) 0) as [|_]; [contradiction|].
      split; [reflexivity|]. split; [exact Hnz|]. split; [reflexivity|].
      destruct (cache_init_success_trace w s1 c s2 Hinit)
        as (e1 & e2 & -> & T1 & T2 & P1 & P2 & _).
      exists (e2 ++ e1). cbn [st_trace].
      split; [now rewrite app_assoc|].
      split; [rewrite prints_in_app, P1, P2; reflexivity|].
      intros p Hin. rewrite touched_app, T1, T2 in Hin.
      apply in_app_or in Hin.
      destruct Hin as [Hin|Hin]; apply repeat_spec in Hin; exact Hin.
Qed.

Lemma main_exit_status_witness :
  exists r released s',
    main exhausted ["covert"; "jam"; "3"; "9"]%string boot
    = Some ((r, released), s') /\
    r = 0 /\
    exists setno cpuno s1 r0 c s2,
      atoi "3" = Some setno /\ atoi "9" = Some cpuno /\
      pin_current_thread exhausted cpuno boot = Some (0, s1) /\
      st_trace s1 = st_trace boot /\
      cache_init exhausted s1 = Some (r0, c, s2) /\
      s' = extend s2
             [EvPrint (role_line "jam");
              EvPrint ("CPU:   " ++ show_int cpuno ++ newline);
              EvPrint ("Set:    " ++ show_int setno ++ newline)] /\
      ((r0 = -1 /\ buffer c = 0 /\ s2 = s1 /\ released = []) \/
       (r0 = 0 /\ buffer c <> 0 /\ released = [buffer c] /\
        exists evs,
          st_trace s2 = evs ++ st_trace s1 /\
          prints_in evs = 0 /\
          forall p, In p (touched evs) -> p = buffer c)).
Proof.
  destruct (main exhausted ["covert"; "jam"; "3"; "9"]%string boot)
    as [[[r released] s']|] eqn:E.
  - exists r, released, s'. split; [reflexivity|].
    apply (proj2 (main_exit_status exhausted _ boot r released s' E)).
    reflexivity.
  - vm_compute in E. discriminate E.
Defined.


